(** * The fpm pipe of goreleaser: argument builder and fan-out orchestrator

    A shallow embedding of [pipeline/fpm/fpm.go].  Go strings are
    [string]s, slices are lists, Go maps are [gmap]s, [int] is [Z].
    The artifact registry and [pipeline.Skip], which live in other
    packages, are modelled from their description.  The name templating
    engine, [linux.Arch], [filepath.Join] and the operating system
    (search path lookup, temporary directories, the [fpm] process, the
    environment) are the fields of the class [World]: every theorem
    holds for every world.  The goroutines of [doRun] are modelled by a
    step function that a schedule drives, so that a theorem on every
    schedule is a theorem on every interleaving. *)

From Stdlib Require Import ZArith List Lia Ascii.
From stdpp Require Import base decidable option list strings gmap fin_maps.

Local Open Scope Z_scope.
Local Open Scope nat_scope.

#[local] Set Warnings "-clear-no-such-hyp".

(** ** Go standard library pieces *)

Module strings.
(** [strings.HasPrefix(s, prefix)]. *)
Definition HasPrefix (s prefix : string) : bool := String.prefix prefix s.
End strings.

Module fmt.
(** [fmt.Sprintf("%s=%s", a, b)]. *)
Definition Sprintf_s_eq_s (a b : string) : string := a +:+ "=" +:+ b.

(** [fmt.Sprintf("PATH=%s:%s", a, b)]. *)
Definition Sprintf_PATH (a b : string) : string := "PATH=" +:+ a +:+ ":" +:+ b.
End fmt.

(** Go's [error] values as this pipe produces and forwards them. *)
Inductive error : Type :=
  | ErrNoFPM                                (* errors.New("fpm not present in $PATH") *)
  | ErrSkip (reason : string)               (* pipeline.Skip(reason) *)
  | ErrExternal (msg : string)              (* an error of a collaborator or of the OS *)
  | ErrWrap (cause : error) (msg : string). (* errors.Wrap(cause, msg) *)

Module pipeline.
(** Modelled from the spec: [pipeline.Skip] lives in the [pipeline]
    package; it builds the skip signal, a marker the pipeline tells
    apart from the failures. *)
Definition Skip (reason : string) : error := ErrSkip reason.

Definition IsSkip (e : error) : bool :=
  match e with ErrSkip _ => true | _ => false end.
End pipeline.

(** ** The artifact registry *)

Module artifact.
(** Modelled from the spec: the [artifact] package is a collaborator;
    an artifact has a kind tag (binary or linux-package), a name, a
    path, an OS, an architecture and an ARM variant. *)
Inductive Type_ : Type := Binary | LinuxPackage.

Global Instance Type_eq_dec : EqDecision Type_.
Proof. solve_decision. Defined.

Record Artifact : Type := mkArtifact {
  Type' : Type_;
  Name : string;
  Path : string;
  Goos : string;
  Goarch : string;
  Goarm : string
}.

(** Modelled from the spec: the filter predicates of the registry. *)
Definition ByType (t : Type_) (a : Artifact) : bool := bool_decide (Type' a = t).
Definition ByGoos (s : string) (a : Artifact) : bool := bool_decide (Goos a = s).
Definition And (f g : Artifact → bool) (a : Artifact) : bool := f a && g a.

(** Modelled from the spec: [Filter(predicate) -> subset], in
    registration order. *)
Definition Filter (p : Artifact → bool) (items : list Artifact) : list Artifact :=
  List.filter p items.

(** Modelled from the spec: the platform key, OS+architecture+variant. *)
Definition platform (a : Artifact) : string := Goos a +:+ Goarch a +:+ Goarm a.

(** Modelled from the spec: [GroupByPlatform(subset) -> mapping
    (platform key -> ordered binaries)]; every artifact is appended to
    the group of its platform key. *)
Definition GroupByPlatform (items : list Artifact) : gmap string (list Artifact) :=
  fold_left
    (fun result a => <[platform a := default [] (result !! platform a) ++ [a]]> result)
    items ∅.

(** Modelled from the spec: [Add(artifact)] appends to the shared
    collection. *)
Definition Add (a : Artifact) (items : list Artifact) : list Artifact := items ++ [a].
End artifact.
Export artifact.

(** ** Configuration and context (the fields this pipe reads) *)

Record FPM : Type := mkFPM {
  NameTemplate : string;
  Replacements : gmap string string;
  Formats : list string;
  Dependencies : list string;
  Conflicts : list string;
  Vendor : string;
  Homepage : string;
  Maintainer : string;
  Description : string;
  License : string;
  Bindir : string;
  Files : gmap string string
}.

Record Project : Type := mkProject {
  ProjectName : string;
  Dist : string;
  FPM_ : FPM
}.

(** The shared artifact collection [ctx.Artifacts] is mutable, it is kept
    in the store of the run, not in this record. *)
Record Context : Type := mkContext {
  Config : Project;
  Version : string;
  Debug : bool;
  Parallelism : Z
}.

Definition defaultNameTemplate : string :=
  "{{ .ProjectName }}_{{ .Version }}_{{ .Os }}_{{ .Arch }}{{ if .Arm }}v{{ .Arm }}{{ end }}".

(** path to gnu-tar on macOS when installed with homebrew *)
Definition gnuTarPath : string := "/usr/local/opt/gnu-tar/libexec/gnubin".

(** ** The argument builder *)

Definition basicOptions (ctx : Context) (workdir format arch file : string) : list string :=
  let fpm := FPM_ (Config ctx) in
  let options :=
    [ "--input-type"; "dir";
      "--output-type"; format;
      "--name"; ProjectName (Config ctx);
      "--version"; Version ctx;
      "--architecture"; arch;
      "--package"; file;
      "--force";
      "--workdir"; workdir ] in
  let options := if Debug ctx then options ++ ["--debug"] else options in
  let options :=
    if bool_decide (Vendor fpm ≠ "") then options ++ ["--vendor"; Vendor fpm] else options in
  let options :=
    if bool_decide (Homepage fpm ≠ "") then options ++ ["--url"; Homepage fpm] else options in
  let options :=
    if bool_decide (Maintainer fpm ≠ "")
    then options ++ ["--maintainer"; Maintainer fpm] else options in
  let options :=
    if bool_decide (Description fpm ≠ "")
    then options ++ ["--description"; Description fpm] else options in
  let options :=
    if bool_decide (License fpm ≠ "") then options ++ ["--license"; License fpm] else options in
  let options :=
    fold_left (fun options dep => options ++ ["--depends"; dep]) (Dependencies fpm) options in
  let options :=
    fold_left (fun options conflict => options ++ ["--conflicts"; conflict])
      (Conflicts fpm) options in
  (* FPM requires --rpm-os=linux if your rpm target is linux *)
  let options :=
    if bool_decide (format = "rpm") then options ++ ["--rpm-os"; "linux"] else options in
  options.

(** ** The operating system and the other collaborators *)

(** An [*exec.Cmd] as [cmd] builds it: the program, the arguments after
    the program name, the environment. *)
Record Cmd : Type := mkCmd {
  CmdName : string;
  Args : list string;
  Env : list string
}.

(** What the pipe does to the outside world, with the answer it got.
    [EvExec] is the whole of [exec.CommandContext(...).CombinedOutput()]:
    the search of the program that [os/exec] makes for a bare name is
    part of it, and a program that is not found is one of the errors of
    the run. *)
Inductive event : Type :=
  | EvLookPath (file : string) (found : option string)
  | EvTempDir (dir prefix : string) (res : string + error)
  | EvExec (c : Cmd) (out : string) (err : option error).

(** The mutable part of a run: the shared artifact collection
    [ctx.Artifacts] and the history of the calls to the outside world. *)
Record Store : Type := mkStore {
  Artifacts : list Artifact;
  trace : list event
}.

(** The outside world.  The answers of the operating system may depend on
    everything that happened before; the templating engine, [linux.Arch]
    and [filepath.Join] are functions of their arguments. *)
Class World : Type := mkWorld {
  Fields : Type;
  filenametemplate_NewFields : Context → gmap string string → list Artifact → Fields;
  filenametemplate_Apply : string → Fields → string + error;
  linux_Arch : string → string;
  filepath_Join : string → string → string;
  os_Environ : list string;
  exec_LookPath_answer : list event → string → option string;
  ioutil_TempDir_answer : list event → string → string → string + error;
  CombinedOutput_answer : list event → Cmd → string * option error
}.

Module os.
(** [os.Getenv(key)] over the entries [key=value] of the environment:
    the value of the first entry for [key], the empty string when there
    is none. *)
Fixpoint lookupEnv (environ : list string) (key : string) : string :=
  match environ with
  | [] => ""
  | e :: environ =>
      if strings.HasPrefix e (key +:+ "=")
      then String.substring (S (String.length key)) (String.length e) e
      else lookupEnv environ key
  end.
End os.

Module filepath.
(** [filepath.Clean] and [filepath.Join] of Go's standard library on
    Unix, after their documentation: runs of separators collapse, [.]
    elements vanish, [..] removes the element before it (and vanishes
    at the root), the empty result is [.]. *)
Fixpoint split_go (cur s : string) : list string :=
  match s with
  | EmptyString => [String.rev cur]
  | String c s =>
      if Ascii.eqb c "/"%char then String.rev cur :: split_go "" s
      else split_go (String c cur) s
  end.

Definition clean_step (rooted : bool) (stack : list string) (c : string) : list string :=
  if bool_decide (c = "") || bool_decide (c = ".") then stack
  else if bool_decide (c = "..") then
    match stack with
    | top :: rest => if bool_decide (top = "..") then c :: stack else rest
    | [] => if rooted then [] else [c]
    end
  else c :: stack.

Definition Clean (path : string) : string :=
  let rooted := strings.HasPrefix path "/" in
  let elems := rev (fold_left (clean_step rooted) (split_go "" path) []) in
  let out := (if rooted then "/" else "") +:+ String.concat "/" elems in
  if bool_decide (out = "") then "." else out.

Definition Join (a b : string) : string :=
  if bool_decide (a ≠ "") then Clean (a +:+ "/" +:+ b)
  else if bool_decide (b ≠ "") then Clean b
  else "".
End filepath.

(** ** Reading an argument sequence back as option groups

    [fpm] reads its arguments from left to right: [--force] and [--debug]
    are switches, every other flag the builder writes takes the next
    token as its value, whatever that token is. *)

Definition is_switch (flag : string) : bool :=
  String.eqb flag "--force" || String.eqb flag "--debug".

Fixpoint token_groups (tokens : list string) : list (list string) :=
  match tokens with
  | [] => []
  | flag :: rest =>
      if is_switch flag then [flag] :: token_groups rest
      else match rest with
           | [] => [[flag]]
           | value :: rest => [flag; value] :: token_groups rest
           end
  end.

Definition has_flag (flag : string) (group : list string) : bool :=
  match group with
  | [] => false
  | first :: _ => String.eqb first flag
  end.

(** The groups of [groups] that start with [flag]. *)
Definition with_flag (flag : string) (groups : list (list string)) : list (list string) :=
  List.filter (has_flag flag) groups.

(** A group as the builder writes them: a switch alone, or a flag that
    is no switch with its value. *)
Definition group_ok (group : list string) : Prop :=
  match group with
  | [flag] => is_switch flag = true
  | [flag; _] => is_switch flag = false
  | _ => False
  end.

(** The groups every invocation needs, as the builder writes them. *)
Definition required_groups (ctx : Context) (workdir format arch file : string)
  : list (list string) :=
  [ ["--input-type"; "dir"];
    ["--output-type"; format];
    ["--name"; ProjectName (Config ctx)];
    ["--version"; Version ctx];
    ["--architecture"; arch];
    ["--package"; file];
    ["--force"];
    ["--workdir"; workdir] ].

(** An optional group: there when the field is not empty. *)
Definition optional_group (flag value : string) : list (list string) :=
  if bool_decide (value ≠ "") then [[flag; value]] else [].

Definition metadata_groups (fpm : FPM) : list (list string) :=
  optional_group "--vendor" (Vendor fpm)
  ++ optional_group "--url" (Homepage fpm)
  ++ optional_group "--maintainer" (Maintainer fpm)
  ++ optional_group "--description" (Description fpm)
  ++ optional_group "--license" (License fpm)
  ++ map (fun dep => ["--depends"; dep]) (Dependencies fpm)
  ++ map (fun conflict => ["--conflicts"; conflict]) (Conflicts fpm).

Definition debug_groups (ctx : Context) : list (list string) :=
  if Debug ctx then [["--debug"]] else [].

Definition rpm_groups (format : string) : list (list string) :=
  if bool_decide (format = "rpm") then [["--rpm-os"; "linux"]] else [].

(** [pair] occurs in [tokens] as two neighbours. *)
Definition has_pair (a b : string) (tokens : list string) : Prop :=
  ∃ before after, tokens = before ++ a :: b :: after.

Definition ends_with (a b : string) (tokens : list string) : Prop :=
  ∃ before, tokens = before ++ [a; b].

(** [s] has an equals sign. *)
Fixpoint has_equals (s : string) : bool :=
  match s with
  | EmptyString => false
  | String c s => Ascii.eqb c "="%char || has_equals s
  end.

(** The entries of an environment that set [PATH]. *)
Definition path_entries (env : list string) : list string :=
  List.filter (fun e => strings.HasPrefix e "PATH=") env.

(** ** The pipe *)

(** The result of a call that may panic. *)
Inductive outcome : Type :=
  | Returned (err : option error)
  | Panicked.

(** A goroutine started by [g.Go]: it runs [create], then its deferred
    [<-sem] releases the slot and the error group records the result. *)
Inductive goroutine : Type :=
  | GoCreate (format arch : string) (binaries : list Artifact)
  | GoDefer (err : option error).

(** Where the calling goroutine stands in [doRun]. *)
Inductive pc : Type :=
  | PcOuter (formats : list string)
  | PcInner (format : string) (groups : list (string * list Artifact)) (formats : list string)
  | PcWait
  | PcReturned (err : option error)
  | PcPanicked.

Record State : Type := mkState {
  main : pc;
  sem : nat;                       (* len(sem) *)
  pool : list goroutine;           (* the goroutines of g that are not done *)
  g_err : option error;            (* the error g.Wait() will return *)
  scheduled : list (string * string * list Artifact);  (* history: the calls of g.Go *)
  store : Store
}.

(** The scheduler's choice: the calling goroutine, or the i-th of the pool. *)
Inductive label : Type :=
  | LMain
  | LTask (i : nat).

(** The tasks past the admission gate: their slot is taken and their
    goroutine is not done. *)
Definition in_flight (s : State) : nat := length (pool s).

(** [doRun] (or [Run]) has returned. *)
Definition returned (s : State) : Prop := ∃ err, main s = PcReturned err.

(** The filter of [doRun]. *)
Definition linux_binaries : Artifact → bool := And (ByType Binary) (ByGoos "linux").

Section Pipe.
Context `{World}.

Definition exec_LookPath (file : string) (st : Store) : option string * Store :=
  let found := exec_LookPath_answer (trace st) file in
  (found, mkStore (Artifacts st) (trace st ++ [EvLookPath file found])).

Definition ioutil_TempDir (dir pref : string) (st : Store) : (string + error) * Store :=
  let res := ioutil_TempDir_answer (trace st) dir pref in
  (res, mkStore (Artifacts st) (trace st ++ [EvTempDir dir pref res])).

Definition CombinedOutput (c : Cmd) (st : Store) : string * option error * Store :=
  let '(out, err) := CombinedOutput_answer (trace st) c in
  (out, err, mkStore (Artifacts st) (trace st ++ [EvExec c out err])).

Definition os_Getenv (key : string) : string := os.lookupEnv os_Environ key.

Definition cmd (ctx : Context) (options : list string) : Cmd :=
  let env := [fmt.Sprintf_PATH gnuTarPath (os_Getenv "PATH")] in
  let env :=
    fold_left
      (fun cmd_Env env => if strings.HasPrefix env "PATH=" then cmd_Env else cmd_Env ++ [env])
      os_Environ env in
  mkCmd "fpm" options env.

(** The argument sequence [create] hands to [cmd]; the extra files are
    a Go map, ranged over in no particular order. *)
Definition createOptions (ctx : Context) (dir format arch file : string)
    (binaries : list Artifact) : list string :=
  let options := basicOptions ctx dir format arch file in
  let options :=
    fold_left
      (fun options binary =>
         options ++ [fmt.Sprintf_s_eq_s (Path binary)
                       (filepath_Join (Bindir (FPM_ (Config ctx))) (Name binary))])
      binaries options in
  let options :=
    fold_left
      (fun options '(src, dest) => options ++ [fmt.Sprintf_s_eq_s src dest])
      (map_to_list (Files (FPM_ (Config ctx)))) options in
  options.

(** The mapping tokens [create] appends to the builder's result. *)
Definition mapping_tokens (ctx : Context) (binaries : list Artifact) : list string :=
  map (fun binary =>
         fmt.Sprintf_s_eq_s (Path binary)
           (filepath_Join (Bindir (FPM_ (Config ctx))) (Name binary)))
    binaries
  ++ map (fun '(src, dest) => fmt.Sprintf_s_eq_s src dest)
       (map_to_list (Files (FPM_ (Config ctx)))).

(** [create]; the log lines are left out. *)
Definition create (ctx : Context) (format arch : string) (binaries : list Artifact)
    (st : Store) : outcome * Store :=
  match filenametemplate_Apply (NameTemplate (FPM_ (Config ctx)))
          (filenametemplate_NewFields ctx (Replacements (FPM_ (Config ctx))) binaries) with
  | inr err => (Returned (Some err), st)
  | inl name =>
      let path := filepath_Join (Dist (Config ctx)) name in
      let file := path +:+ "." +:+ format in
      let '(res, st) := ioutil_TempDir "" "fpm" st in
      match res with
      | inr err => (Returned (Some err), st)
      | inl dir =>
          let options := createOptions ctx dir format arch file binaries in
          let '(out, err, st) := CombinedOutput (cmd ctx options) st in
          match err with
          | Some err => (Returned (Some (ErrWrap err out)), st)
          | None =>
              match binaries with
              | [] => (Panicked, st)  (* binaries[0]: index out of range *)
              | binary0 :: _ =>
                  (Returned None,
                   mkStore
                     (Add (mkArtifact LinuxPackage (name +:+ "." +:+ format) file
                             (Goos binary0) (Goarch binary0) (Goarm binary0))
                        (Artifacts st))
                     (trace st))
              end
          end
      end
  end.

Definition halted (err : option error) (st : Store) : State :=
  mkState (PcReturned err) 0 [] None [] st.

(** [doRun] up to its first loop: [make(chan bool, n)] panics when n is
    negative.  It panics as well for a capacity beyond what the runtime
    can allocate, which this definition leaves out: what is proved
    below of the end of a run is stated for the capacities [make]
    takes. *)
Definition doRun (ctx : Context) (st : Store) : State :=
  if bool_decide (Parallelism ctx < 0)%Z then mkState PcPanicked 0 [] None [] st
  else mkState (PcOuter (Formats (FPM_ (Config ctx)))) 0 [] None [] st.

(** [Run]: a state that has returned, or the state [doRun] starts in. *)
Definition Run (ctx : Context) (st : Store) : State :=
  if bool_decide (length (Formats (FPM_ (Config ctx))) = 0)
  then halted (Some (pipeline.Skip "no output formats configured")) st
  else
    let '(found, st) := exec_LookPath "fpm" st in
    match found with
    | None => halted (Some ErrNoFPM) st
    | Some _ => doRun ctx st
    end.

(** One step of [doRun].  The calling goroutine walks the two loops: the
    range expression is evaluated when the inner loop is entered, on the
    artifacts as they are then; a send on [sem] goes through when the
    channel is not full (a channel of capacity 0 never takes one here:
    the only receives are those of goroutines started after a send), and
    is followed by [linux.Arch] and [g.Go]; [g.Wait] returns when every
    goroutine is done.  A goroutine of the pool runs [create], and then
    gives its slot back and hands its error to the group, which keeps
    the first one.  [create] is one step: the artifact collection is all
    it shares with the other goroutines, and it touches it once, in
    [Add].  A step that is not enabled (a send on a full channel, a wait
    for goroutines that are not done) is [None].  Go ranges over the map
    of the groups in an order of its own, [map_to_list] stands for it:
    what is proved of the tasks of a run is proved up to their order. *)
Definition step (ctx : Context) (l : label) (s : State) : option State :=
  match l with
  | LMain =>
      match main s with
      | PcOuter [] =>
          Some (mkState PcWait (sem s) (pool s) (g_err s) (scheduled s) (store s))
      | PcOuter (format :: formats) =>
          let groups :=
            map_to_list
              (GroupByPlatform
                 (Filter (And (ByType Binary) (ByGoos "linux")) (Artifacts (store s)))) in
          Some (mkState (PcInner format groups formats)
                  (sem s) (pool s) (g_err s) (scheduled s) (store s))
      | PcInner format [] formats =>
          Some (mkState (PcOuter formats) (sem s) (pool s) (g_err s) (scheduled s) (store s))
      | PcInner format ((platform, artifacts) :: groups) formats =>
          if bool_decide (Z.of_nat (sem s) < Parallelism ctx)%Z
          then
            let arch := linux_Arch platform in
            Some (mkState (PcInner format groups formats)
                    (S (sem s))
                    (pool s ++ [GoCreate format arch artifacts])
                    (g_err s)
                    (scheduled s ++ [(format, arch, artifacts)])
                    (store s))
          else None
      | PcWait =>
          match pool s with
          | [] => Some (mkState (PcReturned (g_err s)) (sem s) [] (g_err s)
                          (scheduled s) (store s))
          | _ :: _ => None
          end
      | PcReturned _ | PcPanicked => None
      end
  | LTask i =>
      match main s with
      | PcPanicked => None
      | _ =>
          match pool s !! i with
          | None => None
          | Some (GoCreate format arch binaries) =>
              match create ctx format arch binaries (store s) with
              | (Returned err, st) =>
                  Some (mkState (main s) (sem s) (<[i := GoDefer err]> (pool s))
                          (g_err s) (scheduled s) st)
              | (Panicked, st) =>
                  Some (mkState PcPanicked (sem s) (pool s) (g_err s) (scheduled s) st)
              end
          | Some (GoDefer err) =>
              Some (mkState (main s) (pred (sem s)) (delete i (pool s))
                      (match g_err s with Some e => Some e | None => err end)
                      (scheduled s) (store s))
          end
      end
  end.

(** A run under a schedule. *)
Fixpoint exec (ctx : Context) (schedule : list label) (s : State) : option State :=
  match schedule with
  | [] => Some s
  | l :: schedule =>
      match step ctx l s with
      | Some s => exec ctx schedule s
      | None => None
      end
  end.

(** The platform groups of the Linux binaries, as the inner loop
    ranges over them. *)
Definition platform_groups (items : list Artifact) : list (string * list Artifact) :=
  map_to_list (GroupByPlatform (Filter linux_binaries items)).

Definition task_of (format : string) (group : string * list Artifact)
  : string * string * list Artifact :=
  (format, linux_Arch group.1, group.2).

(** The tasks [doRun] has to start: every format with every platform
    group of the Linux binaries. *)
Definition tasks (ctx : Context) (items : list Artifact)
  : list (string * string * list Artifact) :=
  flat_map (fun format => map (task_of format) (platform_groups items))
    (Formats (FPM_ (Config ctx))).

(** The tasks the calling goroutine has still to start. *)
Definition remaining (items : list Artifact) (p : pc)
  : list (string * string * list Artifact) :=
  match p with
  | PcOuter formats =>
      flat_map (fun format => map (task_of format) (platform_groups items)) formats
  | PcInner format groups formats =>
      map (task_of format) groups
      ++ flat_map (fun format => map (task_of format) (platform_groups items)) formats
  | PcWait | PcReturned _ | PcPanicked => []
  end.

(** What holds of every state of [doRun] that started on the artifacts
    [items]: each goroutine of the pool holds one slot, the slots in use
    are within the capacity, only packages were added to the artifacts,
    no goroutine has an empty group, and the tasks started so far with
    those still to start are the tasks of the run. *)
Definition doRun_inv (ctx : Context) (items : list Artifact) (s : State) : Prop :=
  sem s = length (pool s)
  ∧ (Z.of_nat (length (pool s)) ≤ Z.max 0 (Parallelism ctx))%Z
  ∧ (∃ added, Artifacts (store s) = items ++ added
              ∧ Forall (fun a => Type' a = LinuxPackage) added)
  ∧ Forall (fun g => match g with
                     | GoCreate format arch binaries =>
                         binaries ≠ [] ∧ (format, arch, binaries) ∈ tasks ctx items
                     | GoDefer _ => True
                     end) (pool s)
  ∧ match main s with
    | PcPanicked => (Parallelism ctx < 0)%Z
    | PcReturned err => pool s = [] ∧ err = g_err s ∧ scheduled s = tasks ctx items
    | p => scheduled s ++ remaining items p = tasks ctx items
    end.

(** The steps a goroutine of the pool has still to take. *)
Definition weight (g : goroutine) : nat :=
  match g with GoCreate _ _ _ => 2 | GoDefer _ => 1 end.

(** The number of steps a state is away from the end of [doRun]. *)
Definition steps_left (items : list Artifact) (s : State) : nat :=
  let per_format := 2 + 3 * length (platform_groups items) in
  match main s with
  | PcOuter formats => 2 + length formats * per_format
  | PcInner _ groups formats => 3 + 3 * length groups + length formats * per_format
  | PcWait => 1
  | PcReturned _ | PcPanicked => 0
  end
  + list_sum (map weight (pool s)).

(** The schedule that runs every task to its end as soon as it is
    started. *)
Fixpoint run_in_turn (ctx : Context) (fuel : nat) (s : State) : list label :=
  match fuel with
  | 0 => []
  | S fuel =>
      let l := match pool s with [] => LMain | _ :: _ => LTask 0 end in
      match step ctx l s with
      | Some s' => l :: run_in_turn ctx fuel s'
      | None => []
      end
  end.
End Pipe.

(** ** Concrete data the examples below run on *)

Module Examples.
Definition app : Artifact :=
  mkArtifact Binary "app" "dist/linux_amd64/app" "linux" "amd64" "".
Definition helper : Artifact :=
  mkArtifact Binary "app-helper" "dist/linux_amd64/app-helper" "linux" "amd64" "".
Definition app_arm : Artifact :=
  mkArtifact Binary "app" "dist/linux_arm_6/app" "linux" "arm" "6".
Definition app_darwin : Artifact :=
  mkArtifact Binary "app" "dist/darwin_amd64/app" "darwin" "amd64" "".

Definition fpm (formats : list string) : FPM :=
  mkFPM defaultNameTemplate ∅ formats ["libc6"] [] "" "https://example.org" "" ""
    "MIT" "/usr/local/bin" ∅.

Definition ctx (formats : list string) (parallelism : Z) : Context :=
  mkContext (mkProject "app" "dist" (fpm formats)) "1.2.3" false parallelism.

(** A world where everything works: the name is
    [project_version_os_arch(v arm)] of the first binary, the n-th
    temporary directory is [/tmp/fpm] followed by n marks, [fpm] exits
    with 0. *)
Definition answer_TempDir (h : list event) (dir pref : string) : string + error :=
  inl ("/tmp/" +:+ pref +:+ String.concat "" (replicate (length h) "i")).

Definition apply_fields (tmpl : string) (f : Context * list Artifact) : string + error :=
  match f.2 with
  | [] => inr (ErrExternal "template: no binaries")
  | b :: _ =>
      inl (ProjectName (Config f.1) +:+ "_" +:+ Version f.1 +:+ "_" +:+ Goos b +:+ "_"
           +:+ Goarch b +:+ (if bool_decide (Goarm b = "") then "" else "v" +:+ Goarm b))
  end.

Definition environ : list string :=
  ["HOME=/root"; "PATH=/usr/bin:/bin"; "LANG=C"].

Definition world : World :=
  {| Fields := Context * list Artifact;
     filenametemplate_NewFields := fun c _ bs => (c, bs);
     filenametemplate_Apply := apply_fields;
     linux_Arch := fun platform => platform;
     filepath_Join := filepath.Join;
     os_Environ := environ;
     exec_LookPath_answer := fun _ file => Some ("/usr/local/bin/" +:+ file);
     ioutil_TempDir_answer := answer_TempDir;
     CombinedOutput_answer := fun _ _ => ("", None) |}.

(** The same world without [fpm] on the search path. *)
Definition world_no_fpm : World :=
  {| Fields := Context * list Artifact;
     filenametemplate_NewFields := fun c _ bs => (c, bs);
     filenametemplate_Apply := apply_fields;
     linux_Arch := fun platform => platform;
     filepath_Join := filepath.Join;
     os_Environ := environ;
     exec_LookPath_answer := fun _ _ => None;
     ioutil_TempDir_answer := answer_TempDir;
     CombinedOutput_answer := fun _ _ => ("", None) |}.

(** The same world where [fpm] exits with an error. *)
Definition world_fpm_fails : World :=
  {| Fields := Context * list Artifact;
     filenametemplate_NewFields := fun c _ bs => (c, bs);
     filenametemplate_Apply := apply_fields;
     linux_Arch := fun platform => platform;
     filepath_Join := filepath.Join;
     os_Environ := environ;
     exec_LookPath_answer := fun _ file => Some ("/usr/local/bin/" +:+ file);
     ioutil_TempDir_answer := answer_TempDir;
     CombinedOutput_answer := fun _ _ => ("boom", Some (ErrExternal "exit status 1")) |}.

Definition store0 (items : list Artifact) : Store := mkStore items [].

(** Two formats, two slots; three Linux binaries on two platforms and
    a binary for another OS. *)
Definition ctx2 : Context := ctx ["deb"; "rpm"] 2.
Definition items4 : list Artifact := [app; helper; app_arm; app_darwin].

(** The calling goroutine enters both loops and starts two tasks, the
    first of which runs its [create]. *)
Definition two_in_flight : list label := [LMain; LMain; LMain; LTask 0].
End Examples.

(** ** The defaults of the pipe *)

(** [String]. *)
Definition Pipe_String : string := "creating Linux packages with fpm".

(** [Default] assigns to two fields of [ctx.Config.FPM]; the context with
    these fields assigned is returned with the deprecation notices
    ([deprecate.Notice] is kept as the name it is called with) and the
    error. *)
Definition set_Bindir (fpm : FPM) (bindir : string) : FPM :=
  mkFPM (NameTemplate fpm) (Replacements fpm) (Formats fpm) (Dependencies fpm)
    (Conflicts fpm) (Vendor fpm) (Homepage fpm) (Maintainer fpm) (Description fpm)
    (License fpm) bindir (Files fpm).

Definition set_NameTemplate (fpm : FPM) (template : string) : FPM :=
  mkFPM template (Replacements fpm) (Formats fpm) (Dependencies fpm)
    (Conflicts fpm) (Vendor fpm) (Homepage fpm) (Maintainer fpm) (Description fpm)
    (License fpm) (Bindir fpm) (Files fpm).

Definition set_FPM (ctx : Context) (fpm : FPM) : Context :=
  mkContext (mkProject (ProjectName (Config ctx)) (Dist (Config ctx)) fpm)
    (Version ctx) (Debug ctx) (Parallelism ctx).

Definition Default (ctx : Context) : Context * list string * option error :=
  let fpm := FPM_ (Config ctx) in
  let fpm := if bool_decide (Bindir fpm = "") then set_Bindir fpm "/usr/local/bin" else fpm in
  let fpm :=
    if bool_decide (NameTemplate fpm = "") then set_NameTemplate fpm defaultNameTemplate
    else fpm in
  let notices := if bool_decide (0 < length (Formats fpm)) then ["fpm"] else [] in
  (set_FPM ctx fpm, notices, None).

(** ** What a run hands over to the error group *)


(** The results without error. *)
Definition successes (results : list (option error)) : nat :=
  length (List.filter (fun r => bool_decide (r = None)) results).

(** An artifact made for a Linux binary of [items]: a package for the
    same OS, architecture and ARM variant. *)
Definition package_of (items : list Artifact) (a : Artifact) : Prop :=
  Type' a = LinuxPackage
  ∧ Goos a = "linux"
  ∧ ∃ binary, binary ∈ items ∧ Type' binary = Binary ∧ Goos binary = "linux"
              ∧ Goarch a = Goarch binary ∧ Goarm a = Goarm binary.

(** The artifacts of one platform key. *)
Definition on_platform (key : string) (items : list Artifact) : list Artifact :=
  List.filter (fun a => bool_decide (platform a = key)) items.

(** A bound on the capacities [make(chan bool, n)] takes.  The runtime
    panics (makechan: size out of range) below zero and beyond its
    largest allocation less the header of a channel; on the 64-bit
    platforms the largest allocation is 2^48 bytes, so that a capacity
    up to 2^47 is within it whatever the size of the header.  The
    memory of the buffer is taken to be there. *)
Definition makechan_bound : Z := 2 ^ 47.

(** The tasks of the goroutines of a pool whose [create] has not run
    yet. *)
Definition waiting (pl : list goroutine) : list (string * string * list Artifact) :=
  flat_map
    (fun g => match g with
              | GoCreate format arch binaries => [(format, arch, binaries)]
              | GoDefer _ => []
              end) pl.

(** The calls of [ioutil.TempDir] and the runs of a command in a trace. *)
Definition is_TempDir (e : event) : bool :=
  match e with EvTempDir _ _ _ => true | _ => false end.

Definition is_Exec (e : event) : bool :=
  match e with EvExec _ _ _ => true | _ => false end.

Section Observers.
Context `{World}.

(** The tasks whose [create] was run by a goroutine of the pool along a
    schedule, in the order of these runs. *)
Fixpoint created (ctx : Context) (schedule : list label) (s : State)
  : list (string * string * list Artifact) :=
  match schedule with
  | [] => []
  | l :: schedule =>
      match step ctx l s with
      | None => []
      | Some s' =>
          match l with
          | LTask i =>
              match pool s !! i with
              | Some (GoCreate format arch binaries) => [(format, arch, binaries)]
              | _ => []
              end
          | LMain => []
          end ++ created ctx schedule s'
      end
  end.

(** The results the goroutines hand over to the group along a schedule,
    in the order of their last steps. *)
Fixpoint handed_over (ctx : Context) (schedule : list label) (s : State)
  : list (option error) :=
  match schedule with
  | [] => []
  | l :: schedule =>
      match step ctx l s with
      | None => []
      | Some s' =>
          match l with
          | LTask i =>
              match pool s !! i with
              | Some (GoDefer err) => [err]
              | _ => []
              end
          | LMain => []
          end ++ handed_over ctx schedule s'
      end
  end.

(** The goroutines whose [create] returned no error and that still hold
    their slot. *)
Definition done_well (s : State) : nat :=
  list_sum (map (fun g => match g with GoDefer None => 1 | _ => 0 end) (pool s)).
End Observers.

(** ** More concrete data *)

Module MoreExamples.
Import Examples.

(** A world where [fpm] cannot make rpm packages. *)
Definition answer_no_rpm (h : list event) (c : Cmd) : string * option error :=
  if bool_decide (Args c !! 3 = Some "rpm")
  then ("rpmbuild: not found", Some (ErrExternal "exit status 1"))
  else ("", None).

Definition world_no_rpm : World :=
  {| Fields := Context * list Artifact;
     filenametemplate_NewFields := fun c _ bs => (c, bs);
     filenametemplate_Apply := apply_fields;
     linux_Arch := fun platform => platform;
     filepath_Join := filepath.Join;
     os_Environ := environ;
     exec_LookPath_answer := fun _ file => Some ("/usr/local/bin/" +:+ file);
     ioutil_TempDir_answer := answer_TempDir;
     CombinedOutput_answer := answer_no_rpm |}.

(** Every task run to its end as soon as it is started, in that world. *)
Definition in_turn : list label :=
  Eval vm_compute in run_in_turn (H:=world_no_rpm) ctx2 100 (doRun ctx2 (store0 items4)).

(** The same schedule in the world where everything works. *)
Definition in_turn_ok : list label :=
  Eval vm_compute in run_in_turn (H:=world) ctx2 100 (doRun ctx2 (store0 items4)).

(** A context that differs from [ctx ["rpm"] 4] in the bindir only. *)
Definition ctx_opt : Context :=
  set_FPM (ctx ["rpm"] 4) (set_Bindir (fpm ["rpm"]) "/opt/bin").
End MoreExamples.

(** * Properties *)

(** ** The argument builder *)

Section Builder.
Implicit Types (tokens : list string) (groups : list (list string)).

Lemma fold_left_append {A} (f : A → list string) (l : list A) tokens :
  fold_left (fun options x => options ++ f x) l tokens = tokens ++ flat_map f l.
Proof.
  revert tokens. induction l as [|x l IH]; intros tokens; simpl.
  - by rewrite app_nil_r.
  - by rewrite IH, <- app_assoc.
Qed.

Lemma flat_map_concat_map {A} (f : A → list string) (l : list A) :
  flat_map f l = concat (map f l).
Proof. induction l as [|x l IH]; simpl; by rewrite ?IH. Qed.

Lemma concat_optional_group flag value :
  concat (optional_group flag value)
  = if bool_decide (value ≠ "") then [flag; value] else [].
Proof. unfold optional_group. by case_bool_decide. Qed.

(** The builder's result, group by group. *)
Lemma basicOptions_concat ctx workdir format arch file :
  basicOptions ctx workdir format arch file
  = concat (required_groups ctx workdir format arch file
            ++ debug_groups ctx
            ++ metadata_groups (FPM_ (Config ctx))
            ++ rpm_groups format).
Proof.
  unfold basicOptions, metadata_groups, debug_groups, rpm_groups.
  rewrite !fold_left_append, !flat_map_concat_map.
  rewrite !concat_app, !concat_optional_group.
  destruct (Debug ctx); repeat case_bool_decide; simpl;
    rewrite ?app_nil_r, <- ?app_assoc; simpl; try reflexivity.
Qed.

Lemma token_groups_concat groups tokens :
  Forall group_ok groups →
  token_groups (concat groups ++ tokens) = groups ++ token_groups tokens.
Proof.
  induction 1 as [|group groups Hok _ IH]; [done|].
  destruct group as [|flag [|value [|? ?]]]; simpl in Hok; try done.
  - simpl. by rewrite Hok, IH.
  - simpl. by rewrite Hok, IH.
Qed.

Lemma optional_group_ok flag value :
  is_switch flag = false → Forall group_ok (optional_group flag value).
Proof. intros Hflag. unfold optional_group. case_bool_decide; repeat constructor. done. Qed.

Lemma map_group_ok flag (values : list string) :
  is_switch flag = false → Forall group_ok (map (fun value => [flag; value]) values).
Proof. intros Hflag. induction values; constructor; done. Qed.

Lemma builder_groups_ok ctx workdir format arch file :
  Forall group_ok
    (required_groups ctx workdir format arch file
     ++ debug_groups ctx ++ metadata_groups (FPM_ (Config ctx)) ++ rpm_groups format).
Proof.
  unfold metadata_groups.
  repeat apply Forall_app_2;
    auto using optional_group_ok, map_group_ok.
  - repeat constructor.
  - unfold debug_groups. destruct (Debug ctx); repeat constructor.
  - unfold rpm_groups. case_bool_decide; repeat constructor.
Qed.

(** Read back, the builder's result is the groups it wrote. *)
Lemma token_groups_basicOptions ctx workdir format arch file :
  token_groups (basicOptions ctx workdir format arch file)
  = required_groups ctx workdir format arch file
    ++ debug_groups ctx ++ metadata_groups (FPM_ (Config ctx)) ++ rpm_groups format.
Proof.
  rewrite basicOptions_concat.
  rewrite <- (app_nil_r (concat _)), token_groups_concat by apply builder_groups_ok.
  simpl. by rewrite !app_nil_r.
Qed.

Lemma with_flag_app flag groups1 groups2 :
  with_flag flag (groups1 ++ groups2) = with_flag flag groups1 ++ with_flag flag groups2.
Proof. apply List.filter_app. Qed.

Lemma with_flag_optional_group flag flag' value :
  with_flag flag (optional_group flag' value)
  = if String.eqb flag' flag then optional_group flag' value else [].
Proof.
  unfold optional_group, with_flag.
  case_bool_decide; cbn [List.filter has_flag]; by destruct (String.eqb flag' flag).
Qed.

Lemma with_flag_map flag flag' (values : list string) :
  with_flag flag (map (fun value => [flag'; value]) values)
  = if String.eqb flag' flag then map (fun value => [flag'; value]) values else [].
Proof.
  unfold with_flag. induction values as [|v values IH]; cbn [List.filter has_flag map].
  - by destruct (String.eqb flag' flag).
  - rewrite IH. by destruct (String.eqb flag' flag).
Qed.

Lemma with_flag_debug_groups flag ctx :
  with_flag flag (debug_groups ctx)
  = if String.eqb "--debug" flag then debug_groups ctx else [].
Proof.
  unfold debug_groups, with_flag.
  destruct (Debug ctx); cbn [List.filter has_flag]; by destruct (String.eqb "--debug" flag).
Qed.

Lemma with_flag_rpm_groups flag format :
  with_flag flag (rpm_groups format)
  = if String.eqb "--rpm-os" flag then rpm_groups format else [].
Proof.
  unfold rpm_groups, with_flag.
  case_bool_decide; cbn [List.filter has_flag]; by destruct (String.eqb "--rpm-os" flag).
Qed.

Lemma with_flag_metadata_groups flag fpm :
  with_flag flag (metadata_groups fpm)
  = (if String.eqb "--vendor" flag then optional_group "--vendor" (Vendor fpm) else [])
    ++ (if String.eqb "--url" flag then optional_group "--url" (Homepage fpm) else [])
    ++ (if String.eqb "--maintainer" flag
        then optional_group "--maintainer" (Maintainer fpm) else [])
    ++ (if String.eqb "--description" flag
        then optional_group "--description" (Description fpm) else [])
    ++ (if String.eqb "--license" flag then optional_group "--license" (License fpm) else [])
    ++ (if String.eqb "--depends" flag
        then map (fun dep => ["--depends"; dep]) (Dependencies fpm) else [])
    ++ (if String.eqb "--conflicts" flag
        then map (fun conflict => ["--conflicts"; conflict]) (Conflicts fpm) else []).
Proof.
  unfold metadata_groups.
  by rewrite !with_flag_app, !with_flag_optional_group, !with_flag_map.
Qed.

(** The groups with a given flag in what the builder wrote, once the
    flag is a string literal. *)
Ltac flag_count :=
  rewrite token_groups_basicOptions;
  rewrite !with_flag_app, with_flag_debug_groups, with_flag_metadata_groups,
    with_flag_rpm_groups;
  simpl; rewrite ?app_nil_r; try reflexivity.

(** C1 — Whatever the package specification, the builder's sequence
    starts with the required token groups in their fixed order
    (input-type=dir, output-type=format, name, version, architecture,
    package=output file, force, workdir), and read back as option
    groups it has each of them exactly once: a single group carries
    each required flag, and it is the required one. *)
Theorem basicOptions_required ctx workdir format arch file :
  let options := basicOptions ctx workdir format arch file in
  let required := required_groups ctx workdir format arch file in
  take 15 options = concat required
  ∧ concat (token_groups options) = options
  ∧ take 8 (token_groups options) = required
  ∧ Forall (fun group => with_flag (hd "" group) (token_groups options) = [group]) required.
Proof.
  intros options required. subst options required. repeat split.
  - by rewrite basicOptions_concat.
  - by rewrite token_groups_basicOptions, <- basicOptions_concat.
  - by rewrite token_groups_basicOptions.
  - repeat constructor; simpl hd; flag_count.
Qed.

(** C2 — Whatever the package specification, after the required groups
    come the debug switch, then vendor, homepage (as --url), maintainer,
    description and license, then one --depends group per dependency
    and one --conflicts group per conflict, both in input order (and
    last the rpm pair).  A metadata group is there if and only if its
    field is not empty, and then carries the field; the debug switch is
    there if and only if debug mode is on. *)
Theorem basicOptions_optional ctx workdir format arch file :
  let fpm := FPM_ (Config ctx) in
  let groups := token_groups (basicOptions ctx workdir format arch file) in
  groups = required_groups ctx workdir format arch file
           ++ debug_groups ctx ++ metadata_groups fpm ++ rpm_groups format
  ∧ with_flag "--vendor" groups = optional_group "--vendor" (Vendor fpm)
  ∧ with_flag "--url" groups = optional_group "--url" (Homepage fpm)
  ∧ with_flag "--maintainer" groups = optional_group "--maintainer" (Maintainer fpm)
  ∧ with_flag "--description" groups = optional_group "--description" (Description fpm)
  ∧ with_flag "--license" groups = optional_group "--license" (License fpm)
  ∧ with_flag "--depends" groups = map (fun dep => ["--depends"; dep]) (Dependencies fpm)
  ∧ with_flag "--conflicts" groups
    = map (fun conflict => ["--conflicts"; conflict]) (Conflicts fpm)
  ∧ with_flag "--debug" groups = (if Debug ctx then [["--debug"]] else [])
  ∧ (∀ flag value,
       (flag, value) ∈ [("--vendor", Vendor fpm); ("--url", Homepage fpm);
                        ("--maintainer", Maintainer fpm);
                        ("--description", Description fpm);
                        ("--license", License fpm)] →
       ((∃ group, group ∈ groups ∧ has_flag flag group = true) ↔ value ≠ ""))
  ∧ ((∃ group, group ∈ groups ∧ has_flag "--debug" group = true) ↔ Debug ctx = true).
Proof.
  intros fpm groups. subst fpm groups.
  split; [apply token_groups_basicOptions|].
  assert (Hin : ∀ flag, (∃ group, group ∈ token_groups (basicOptions ctx workdir format arch file)
                           ∧ has_flag flag group = true)
                        ↔ with_flag flag (token_groups (basicOptions ctx workdir format arch file)) ≠ []).
  { intros flag. unfold with_flag. split.
    - intros (group & Hgroup & Hflag) Hnil.
      assert (Hf : In group (List.filter (has_flag flag)
                     (token_groups (basicOptions ctx workdir format arch file)))).
      { apply List.filter_In. split; [by apply list_elem_of_In|done]. }
      by rewrite Hnil in Hf.
    - destruct (List.filter _ _) as [|group rest] eqn:Hf; [done|]. intros _.
      assert (Hg : In group (List.filter (has_flag flag)
                     (token_groups (basicOptions ctx workdir format arch file)))).
      { rewrite Hf. by left. }
      apply List.filter_In in Hg as [Hg1 Hg2]. exists group.
      split; [by apply list_elem_of_In|done]. }
  assert (Hopt : ∀ flag value, optional_group flag value ≠ [] ↔ value ≠ "").
  { intros flag value. unfold optional_group. case_bool_decide; split; intros; done. }
  do 8 (split; [flag_count|]).
  split.
  - intros flag value Hmem. rewrite Hin.
    apply list_elem_of_In in Hmem. simpl in Hmem.
    destruct Hmem as [Hm|[Hm|[Hm|[Hm|[Hm|[]]]]]]; inversion Hm; subst; clear Hm;
      flag_count; apply Hopt.
  - rewrite Hin. flag_count. unfold debug_groups. by destruct (Debug ctx).
Qed.
End Builder.

(** ** The argument sequence of the process *)

Section Arguments.
Context `{World}.
Implicit Types (tokens : list string) (groups : list (list string)).

Lemma fold_left_append_one {A} (f : A → string) (l : list A) tokens :
  fold_left (fun options x => options ++ [f x]) l tokens = tokens ++ map f l.
Proof.
  revert tokens. induction l as [|x l IH]; intros tokens; simpl.
  - by rewrite app_nil_r.
  - by rewrite IH, <- app_assoc.
Qed.

Lemma createOptions_split ctx dir format arch file binaries :
  createOptions ctx dir format arch file binaries
  = basicOptions ctx dir format arch file ++ mapping_tokens ctx binaries.
Proof.
  unfold createOptions, mapping_tokens.
  rewrite (fold_left_append_one
             (fun binary =>
                fmt.Sprintf_s_eq_s (Path binary)
                  (filepath_Join (Bindir (FPM_ (Config ctx))) (Name binary)))).
  rewrite app_assoc.
  rewrite <- (fold_left_append_one (fun '(src, dest) => fmt.Sprintf_s_eq_s src dest)).
  generalize (basicOptions ctx dir format arch file
              ++ map (fun binary =>
                        fmt.Sprintf_s_eq_s (Path binary)
                          (filepath_Join (Bindir (FPM_ (Config ctx))) (Name binary)))
                   binaries).
  induction (map_to_list _) as [|[src dest] l IH]; intros tokens; simpl; [done|apply IH].
Qed.

Lemma has_equals_Sprintf a b : has_equals (fmt.Sprintf_s_eq_s a b) = true.
Proof.
  unfold fmt.Sprintf_s_eq_s. induction a as [|c a IH]; [done|].
  change (String c a +:+ "=" +:+ b) with (String c (a +:+ "=" +:+ b)).
  simpl. rewrite IH. apply orb_true_r.
Qed.

Lemma mapping_tokens_has_equals ctx binaries :
  Forall (fun token => has_equals token = true) (mapping_tokens ctx binaries).
Proof.
  unfold mapping_tokens. apply Forall_app_2; apply Forall_map, Forall_true.
  - intros b. apply has_equals_Sprintf.
  - intros [src dest]. apply has_equals_Sprintf.
Qed.

Lemma head_concat_groups groups tokens b :
  Forall group_ok groups →
  head (concat groups ++ tokens) = Some b →
  (∃ group, group ∈ groups ∧ has_flag b group = true) ∨ b ∈ tokens.
Proof.
  intros Hok Hhead. destruct Hok as [|group groups Hgroup _].
  - right. destruct tokens; simplify_eq/=. left.
  - left. exists group. split; [left|].
    destruct group as [|flag rest]; [done|]. simplify_eq/=. apply String.eqb_refl.
Qed.

(** Two neighbours in a sequence of groups followed by other tokens
    form a group, or the second one starts a group, or it is one of
    the other tokens. *)
Lemma has_pair_groups groups tokens a b :
  Forall group_ok groups →
  has_pair a b (concat groups ++ tokens) →
  [a; b] ∈ groups ∨ (∃ group, group ∈ groups ∧ has_flag b group = true) ∨ b ∈ tokens.
Proof.
  intros Hok. induction Hok as [|group groups Hgroup Hok IH].
  - simpl. intros (before & after & ->). right. right. set_solver.
  - intros (before & after & Heq).
    assert (Hnext : ∀ flag', head (concat groups ++ tokens) = Some flag' →
              (∃ g, g ∈ group :: groups ∧ has_flag flag' g = true) ∨ flag' ∈ tokens).
    { intros flag' Hhd. apply head_concat_groups in Hhd as [(g & Hg & Hf)|Hin]; [|by right|done].
      left. exists g. split; [by right|done]. }
    assert (Hrest : has_pair a b (concat groups ++ tokens) →
              [a; b] ∈ group :: groups
              ∨ (∃ g, g ∈ group :: groups ∧ has_flag b g = true) ∨ b ∈ tokens).
    { intros Hp. destruct (IH Hp) as [Hin|[(g & Hg & Hf)|Hin]].
      - left. by right.
      - right. left. exists g. split; [by right|done].
      - right. by right. }
    destruct group as [|flag [|value [|? ?]]]; simpl in Hgroup; try done.
    + simpl in Heq. destruct before as [|x before]; simpl in Heq;
        injection Heq as Hflag Htail.
      * right. apply Hnext. by rewrite Htail.
      * apply Hrest. by exists before, after.
    + simpl in Heq. destruct before as [|x [|y before]]; simpl in Heq.
      * injection Heq as Hflag Hvalue Htail. subst. left. left.
      * injection Heq as Hflag Hvalue Htail. right. apply Hnext. by rewrite Htail.
      * injection Heq as Hflag Hvalue Htail. apply Hrest. by exists before, after.
Qed.

Lemma ends_with_has_pair a b tokens : ends_with a b tokens → has_pair a b tokens.
Proof. intros [before ->]. by exists before, []. Qed.

Lemma has_pair_app_l a b tokens1 tokens2 :
  has_pair a b tokens1 → has_pair a b (tokens1 ++ tokens2).
Proof.
  intros (before & after & ->). exists before, (after ++ tokens2).
  by rewrite <- app_assoc.
Qed.

Lemma with_flag_nil_not_in flag groups group :
  with_flag flag groups = [] → group ∈ groups → has_flag flag group = false.
Proof.
  intros Hnil Hin. destruct (has_flag flag group) eqn:Hflag; [|done].
  assert (Hf : In group (with_flag flag groups)).
  { apply List.filter_In. split; [by apply list_elem_of_In|done]. }
  by rewrite Hnil in Hf.
Qed.

Lemma basicOptions_rpm_last ctx dir arch file :
  ends_with "--rpm-os" "linux" (basicOptions ctx dir "rpm" arch file).
Proof.
  rewrite basicOptions_concat. unfold rpm_groups. rewrite bool_decide_eq_true_2 by done.
  exists (concat (required_groups ctx dir "rpm" arch file
                  ++ debug_groups ctx ++ metadata_groups (FPM_ (Config ctx)))).
  by rewrite !app_assoc, concat_app.
Qed.

Lemma createOptions_no_rpm_pair ctx dir format arch file binaries :
  format ≠ "rpm" →
  ¬ has_pair "--rpm-os" "linux" (createOptions ctx dir format arch file binaries).
Proof.
  intros Hformat Hpair. rewrite createOptions_split, basicOptions_concat in Hpair.
  apply has_pair_groups in Hpair; [|apply builder_groups_ok].
  rewrite <- token_groups_basicOptions in Hpair.
  assert (Hrpm : with_flag "--rpm-os" (token_groups (basicOptions ctx dir format arch file)) = []).
  { rewrite token_groups_basicOptions.
    rewrite !with_flag_app, with_flag_debug_groups, with_flag_metadata_groups,
      with_flag_rpm_groups.
    simpl. unfold rpm_groups. by rewrite bool_decide_eq_false_2. }
  assert (Hlinux : with_flag "linux" (token_groups (basicOptions ctx dir format arch file)) = []).
  { rewrite token_groups_basicOptions.
    rewrite !with_flag_app, with_flag_debug_groups, with_flag_metadata_groups,
      with_flag_rpm_groups.
    done. }
  destruct Hpair as [Hin|[(group & Hin & Hflag)|Hin]].
  - by apply (with_flag_nil_not_in _ _ _ Hrpm) in Hin.
  - apply (with_flag_nil_not_in _ _ _ Hlinux) in Hin. congruence.
  - pose proof (mapping_tokens_has_equals ctx binaries) as Heq.
    rewrite Forall_forall in Heq. by apply Heq in Hin.
Qed.

(** What a call of [create] does, case by case: the template fails; or
    the temporary directory cannot be made; or [fpm] is run once, on
    the arguments of [createOptions], and either fails, or succeeds and
    the package is added (or, with no binary at all, [binaries[0]]
    panics). *)
Lemma create_cases ctx format arch binaries st r st' :
  create ctx format arch binaries st = (r, st') →
  (∃ err, r = Returned (Some err) ∧ st' = st
          ∧ filenametemplate_Apply (NameTemplate (FPM_ (Config ctx)))
              (filenametemplate_NewFields ctx (Replacements (FPM_ (Config ctx))) binaries)
            = inr err)
  ∨ (∃ name err,
       filenametemplate_Apply (NameTemplate (FPM_ (Config ctx)))
         (filenametemplate_NewFields ctx (Replacements (FPM_ (Config ctx))) binaries)
       = inl name
       ∧ r = Returned (Some err)
       ∧ st' = mkStore (Artifacts st) (trace st ++ [EvTempDir "" "fpm" (inr err)]))
  ∨ (∃ name dir out err,
       let file := filepath_Join (Dist (Config ctx)) name +:+ "." +:+ format in
       let c := cmd ctx (createOptions ctx dir format arch file binaries) in
       filenametemplate_Apply (NameTemplate (FPM_ (Config ctx)))
         (filenametemplate_NewFields ctx (Replacements (FPM_ (Config ctx))) binaries)
       = inl name
       ∧ trace st' = trace st ++ [EvTempDir "" "fpm" (inl dir); EvExec c out err]
       ∧ ((∃ e, err = Some e ∧ r = Returned (Some (ErrWrap e out))
                ∧ Artifacts st' = Artifacts st)
          ∨ (err = None ∧ binaries = [] ∧ r = Panicked ∧ Artifacts st' = Artifacts st)
          ∨ (∃ binary0 rest,
               err = None ∧ binaries = binary0 :: rest ∧ r = Returned None
               ∧ Artifacts st'
                 = Artifacts st
                   ++ [mkArtifact LinuxPackage (name +:+ "." +:+ format) file
                         (Goos binary0) (Goarch binary0) (Goarm binary0)]))).
Proof.
  unfold create, ioutil_TempDir, CombinedOutput.
  destruct (filenametemplate_Apply _ _) as [name|err] eqn:Hname.
  { destruct (ioutil_TempDir_answer _ _ _) as [dir|err] eqn:Hdir.
    - destruct (CombinedOutput_answer _ _) as [out err] eqn:Hrun. simpl.
      intros Heq. right. right. exists name, dir, out, err. simpl.
      split; [done|].
      destruct err as [e|].
      + simplify_eq. simpl. rewrite <- app_assoc. split; [done|]. left. by exists e.
      + destruct binaries as [|binary0 rest]; simplify_eq; simpl; rewrite <- app_assoc.
        * split; [done|]. right. by left.
        * split; [done|]. right. right. by exists binary0, rest.
    - intros Heq. simplify_eq. right. left. by exists name, err. }
  intros Heq. simplify_eq. left. by exists err.
Qed.

Lemma ends_with_app_last a b tokens1 tokens2 last :
  ends_with a b (tokens1 ++ tokens2 ++ [last]) → b = last.
Proof.
  intros [before Heq]. rewrite !app_assoc in Heq.
  change [a; b] with ([a] ++ [b]) in Heq. rewrite app_assoc in Heq.
  by apply app_inj_tail in Heq as [_ ->].
Qed.

(** C3 (amended) — The pair --rpm-os linux closes the builder's result
    exactly when the format is rpm, and it occurs in the full argument
    sequence of the process exactly when the format is rpm.  The full
    sequence is the builder's result followed by the mapping tokens, so
    the pair comes right before them: it closes the full sequence only
    when the format is rpm and there is no mapping token.  Every
    process [create] runs gets such a sequence. *)
Theorem createOptions_rpm_pair ctx dir format arch file binaries :
  let options := createOptions ctx dir format arch file binaries in
  options = basicOptions ctx dir format arch file ++ mapping_tokens ctx binaries
  ∧ (ends_with "--rpm-os" "linux" (basicOptions ctx dir format arch file) ↔ format = "rpm")
  ∧ (has_pair "--rpm-os" "linux" options ↔ format = "rpm")
  ∧ (ends_with "--rpm-os" "linux" options
     ↔ format = "rpm" ∧ mapping_tokens ctx binaries = [])
  ∧ (∀ st c out err,
       EvExec c out err ∈ drop (length (trace st))
                            (trace (create ctx format arch binaries st).2) →
       ∃ dir' file', Args c = createOptions ctx dir' format arch file' binaries).
Proof.
  intros options. subst options.
  assert (Hno : format ≠ "rpm" →
                ¬ has_pair "--rpm-os" "linux" (basicOptions ctx dir format arch file)).
  { intros Hformat Hpair.
    apply (createOptions_no_rpm_pair ctx dir format arch file binaries Hformat).
    rewrite createOptions_split. by apply has_pair_app_l. }
  split; [apply createOptions_split|]. split; [|split; [|split]].
  - split.
    + intros Hends. destruct (decide (format = "rpm")) as [|Hformat]; [done|].
      by apply ends_with_has_pair, Hno in Hends.
    + intros ->. apply basicOptions_rpm_last.
  - split.
    + intros Hpair. destruct (decide (format = "rpm")) as [|Hformat]; [done|].
      by apply createOptions_no_rpm_pair in Hpair.
    + intros ->. rewrite createOptions_split.
      apply has_pair_app_l, ends_with_has_pair, basicOptions_rpm_last.
  - split.
    + intros Hends. split.
      * destruct (decide (format = "rpm")) as [|Hformat]; [done|].
        by apply ends_with_has_pair, createOptions_no_rpm_pair in Hends.
      * rewrite createOptions_split in Hends.
        destruct (decide (mapping_tokens ctx binaries = [])) as [|Hne]; [done|].
        destruct (exists_last Hne) as (ts & t & Hmap).
        pose proof (mapping_tokens_has_equals ctx binaries) as Heq.
        rewrite Hmap in Hends, Heq. apply ends_with_app_last in Hends.
        rewrite Forall_app, Forall_singleton in Heq. destruct Heq as [_ Heq].
        subst t. discriminate Heq.
    + intros [-> Hmap]. rewrite createOptions_split, Hmap, app_nil_r.
      apply basicOptions_rpm_last.
  - intros st c out err Hin.
    destruct (create ctx format arch binaries st) as [r st'] eqn:Hcreate.
    apply create_cases in Hcreate
      as [(e & _ & -> & _)|[(name & e & _ & _ & ->)
                           |(name & dir' & out' & err' & _ & Htrace & _)]];
      simpl in Hin.
    + rewrite drop_all in Hin. by apply elem_of_nil in Hin.
    + rewrite drop_app_length in Hin. apply list_elem_of_singleton in Hin. done.
    + rewrite Htrace, drop_app_length in Hin.
      apply elem_of_cons in Hin as [Hin|Hin]; [done|].
      apply list_elem_of_singleton in Hin. simplify_eq. by eexists _, _.
Qed.
End Arguments.

(** ** The artifact registry *)

Section Registry.
Implicit Types (items : list Artifact) (groups : gmap string (list Artifact)).

Lemma Filter_app p items1 items2 :
  Filter p (items1 ++ items2) = Filter p items1 ++ Filter p items2.
Proof. apply List.filter_app. Qed.

(** Packages are no Linux binaries: adding them does not change what
    the filter of [doRun] selects. *)
Lemma Filter_packages items added :
  Forall (fun a => Type' a = LinuxPackage) added →
  Filter linux_binaries (items ++ added) = Filter linux_binaries items.
Proof.
  intros Hadded. rewrite Filter_app.
  assert (Hnil : Filter linux_binaries added = []).
  { induction Hadded as [|a added Ha _ IH]; [done|].
    unfold Filter in *. simpl. unfold linux_binaries at 1, And, ByType.
    rewrite Ha. by rewrite bool_decide_eq_false_2. }
  by rewrite Hnil, app_nil_r.
Qed.

Lemma group_fold_nonempty items groups :
  (∀ key group, groups !! key = Some group → group ≠ []) →
  ∀ key group,
    fold_left
      (fun result a => <[platform a := default [] (result !! platform a) ++ [a]]> result)
      items groups !! key = Some group →
    group ≠ [].
Proof.
  revert groups. induction items as [|a items IH]; intros groups Hgroups; [done|].
  simpl. apply IH. intros key group.
  destruct (decide (platform a = key)) as [->|Hne].
  - rewrite lookup_insert_eq. intros [= <-]. by destruct (default _ _).
  - rewrite lookup_insert_ne by done. apply Hgroups.
Qed.

(** No platform group is empty. *)
Lemma GroupByPlatform_nonempty items key group :
  GroupByPlatform items !! key = Some group → group ≠ [].
Proof. apply group_fold_nonempty. intros ? ?. by rewrite lookup_empty. Qed.

Lemma group_fold_dom items groups :
  dom (fold_left
         (fun result a => <[platform a := default [] (result !! platform a) ++ [a]]> result)
         items groups)
  = dom groups ∪ list_to_set (platform <$> items).
Proof.
  revert groups. induction items as [|a items IH]; intros groups; simpl.
  - set_solver.
  - rewrite IH, dom_insert_L. set_solver.
Qed.

(** The keys of the grouping are the platforms of the artifacts. *)
Lemma GroupByPlatform_dom items :
  dom (GroupByPlatform items) = list_to_set (platform <$> items).
Proof. unfold GroupByPlatform. rewrite group_fold_dom. set_solver. Qed.

(** There are as many groups as distinct platforms. *)
Lemma GroupByPlatform_size items :
  length (map_to_list (GroupByPlatform items))
  = size (list_to_set (platform <$> items) : gset string).
Proof. by rewrite length_map_to_list, <- GroupByPlatform_dom, size_dom. Qed.

Lemma GroupByPlatform_nil : GroupByPlatform [] = ∅.
Proof. done. Qed.
End Registry.

(** ** The fan-out orchestrator *)

Section Orchestrator.
Context `{World}.
Variable ctx : Context.
Variable items : list Artifact.

Lemma tasks_binaries format arch binaries :
  (format, arch, binaries) ∈ tasks ctx items → binaries ≠ [].
Proof.
  unfold tasks, platform_groups. rewrite list_elem_of_In, in_flat_map.
  intros (format' & _ & Hin). apply in_map_iff in Hin as ([key group] & Htask & Hin).
  unfold task_of in Htask. simpl in Htask. simplify_eq.
  apply list_elem_of_In, elem_of_map_to_list in Hin.
  by apply GroupByPlatform_nonempty in Hin.
Qed.

(** [create] adds nothing but packages, and panics on no other input
    than an empty group. *)
Lemma create_artifacts format arch binaries st r st' :
  create ctx format arch binaries st = (r, st') →
  (∃ added, Artifacts st' = Artifacts st ++ added
            ∧ Forall (fun a => Type' a = LinuxPackage) added)
  ∧ (r = Panicked → binaries = []).
Proof.
  intros Hcreate.
  apply create_cases in Hcreate
    as [(e & -> & -> & _)|[(name & e & _ & -> & ->)|(name & dir & out & err & _ & _ & Hend)]].
  - split; [|done]. exists []. by rewrite app_nil_r.
  - split; [|done]. exists []. by rewrite app_nil_r.
  - destruct Hend as [(e & _ & -> & ->)|[(_ & Hnil & -> & ->)|(b0 & rest & _ & _ & -> & ->)]].
    + split; [|done]. exists []. by rewrite app_nil_r.
    + split; [|done]. exists []. by rewrite app_nil_r.
    + split; [|done]. eexists [_]. split; [done|]. by repeat constructor.
Qed.

Lemma doRun_inv_start st : Artifacts st = items → doRun_inv ctx items (doRun ctx st).
Proof.
  intros Hitems. unfold doRun, doRun_inv. case_bool_decide; simpl.
  - repeat split; try done; try lia. exists []. by rewrite app_nil_r.
  - repeat split; try done; try lia. exists []. by rewrite app_nil_r.
Qed.

Lemma doRun_inv_step l s s' :
  doRun_inv ctx items s → step ctx l s = Some s' → doRun_inv ctx items s'.
Proof.
  destruct s as [m sm pl ge sc st].
  intros (Hsem & Hcap & (added & Hart & Hadded) & Hpool & Hmain). simpl in *.
  destruct l as [|i]; simpl.
  - destruct m as [[|format formats]|format [|[platform artifacts] groups] formats| | |];
      try done.
    + intros [= <-]. repeat split; simpl; eauto.
    + intros [= <-]. repeat split; simpl; eauto.
      rewrite Hart. fold linux_binaries. rewrite Filter_packages by done. apply Hmain.
    + intros [= <-]. repeat split; simpl; eauto.
    + case_bool_decide as Hfree; [|done]. intros [= <-].
      assert (Htask : (format, linux_Arch platform, artifacts) ∈ tasks ctx items).
      { rewrite <- Hmain. simpl. apply elem_of_app. right. left. }
      repeat split; simpl; eauto.
      * rewrite length_app. simpl. lia.
      * rewrite length_app. simpl. lia.
      * apply Forall_app. split; [done|]. constructor; [|done].
        split; [|done]. by apply tasks_binaries in Htask.
      * rewrite <- app_assoc. apply Hmain.
    + destruct pl; [|done]. intros [= <-]. repeat split; simpl; eauto.
      by rewrite app_nil_r in Hmain.
  - destruct (pl !! i) as [[format arch binaries|err]|] eqn:Hi.
    + destruct (create ctx format arch binaries st) as [r st'] eqn:Hcreate.
      apply create_artifacts in Hcreate as [(added' & Hart' & Hadded') Hpanic].
      pose proof (Forall_lookup_1 _ _ _ _ Hpool Hi) as [Hbinaries _].
      destruct r as [err|]; [|by specialize (Hpanic eq_refl)].
      assert (Hinv : ∀ m', m' = m → m ≠ PcPanicked →
                doRun_inv ctx items (mkState m' sm (<[i:=GoDefer err]> pl) ge sc st')).
      { intros m' -> Hnp. repeat split; simpl.
        - by rewrite length_insert.
        - by rewrite length_insert.
        - exists (added ++ added'). rewrite Hart', Hart, app_assoc.
          split; [done|]. by apply Forall_app.
        - by apply Forall_insert.
        - destruct m; try done. destruct Hmain as (-> & _). done. }
      destruct m; intros [= <-]; try done; by apply Hinv.
    + assert (Hinv : ∀ m', m' = m → m ≠ PcPanicked →
                doRun_inv ctx items
                  (mkState m' (pred sm) (delete i pl)
                     (match ge with Some e => Some e | None => err end) sc st)).
      { intros m' -> Hnp.
        assert (Hlen : length (delete i pl) = pred (length pl)).
        { rewrite length_delete by eauto. lia. }
        repeat split; simpl.
        - by rewrite Hlen, Hsem.
        - rewrite Hlen. lia.
        - eauto.
        - by apply Forall_delete.
        - destruct m; try done. destruct Hmain as (-> & _). done. }
      destruct m; intros [= <-]; try done; by apply Hinv.
    + by destruct m.
Qed.

Lemma doRun_inv_exec schedule s s' :
  doRun_inv ctx items s → exec ctx schedule s = Some s' → doRun_inv ctx items s'.
Proof.
  revert s. induction schedule as [|l schedule IH]; intros s Hinv; simpl.
  - by intros [= <-].
  - destruct (step ctx l s) as [s1|] eqn:Hstep; [|done].
    apply IH. by eapply doRun_inv_step.
Qed.

Lemma list_sum_insert (pl : list goroutine) i g g' :
  pl !! i = Some g →
  list_sum (map weight (<[i:=g']> pl)) + weight g = list_sum (map weight pl) + weight g'.
Proof.
  revert i. induction pl as [|g0 pl IH]; intros [|i] Hi; simplify_eq/=; [lia|].
  specialize (IH i Hi). lia.
Qed.

Lemma list_sum_delete (pl : list goroutine) i g :
  pl !! i = Some g →
  list_sum (map weight (delete i pl)) + weight g = list_sum (map weight pl).
Proof.
  revert i. induction pl as [|g0 pl IH]; intros [|i] Hi; simplify_eq/=; [lia|].
  specialize (IH i Hi). lia.
Qed.

(** Every step brings the end of [doRun] one step closer. *)
Lemma steps_left_step l s s' :
  doRun_inv ctx items s → step ctx l s = Some s' →
  S (steps_left items s') = steps_left items s.
Proof.
  destruct s as [m sm pl ge sc st].
  intros (Hsem & Hcap & (added & Hart & Hadded) & Hpool & Hmain).
  unfold steps_left. simpl in *.
  destruct l as [|i]; simpl.
  - destruct m as [[|format formats]|format [|[platform artifacts] groups] formats| | |];
      try done.
    + intros [= <-]. simpl. lia.
    + intros [= <-]. simpl. rewrite Hart. fold linux_binaries.
      rewrite Filter_packages by done. fold (platform_groups items). lia.
    + intros [= <-]. simpl. lia.
    + case_bool_decide; [|done]. intros [= <-]. simpl.
      rewrite map_app, list_sum_app. simpl. lia.
    + destruct pl; [|done]. intros [= <-]. simpl. lia.
  - destruct (pl !! i) as [[format arch binaries|err]|] eqn:Hi.
    + destruct (create ctx format arch binaries st) as [r st'] eqn:Hcreate.
      apply create_artifacts in Hcreate as [_ Hpanic].
      pose proof (Forall_lookup_1 _ _ _ _ Hpool Hi) as [Hbinaries _].
      destruct r as [err|]; [|by specialize (Hpanic eq_refl)].
      pose proof (list_sum_insert pl i _ (GoDefer err) Hi) as Hsum. simpl in Hsum.
      destruct m; intros [= <-]; simpl; lia.
    + pose proof (list_sum_delete pl i _ Hi) as Hsum. simpl in Hsum.
      destruct m; intros [= <-]; simpl; lia.
    + by destruct m.
Qed.

(** [doRun] is never stuck before it returns, as long as a slot can be
    had when there is a task to start. *)
Lemma doRun_progress s :
  doRun_inv ctx items s →
  (0 ≤ Parallelism ctx)%Z →
  (1 ≤ Parallelism ctx)%Z ∨ tasks ctx items = [] →
  returned s ∨ ∃ l s', step ctx l s = Some s'.
Proof.
  destruct s as [m sm pl ge sc st].
  intros (Hsem & Hcap & _ & Hpool & Hmain) Hpos Hslot. simpl in *.
  destruct pl as [|g pl].
  - destruct m as [[|format formats]|format [|[platform artifacts] groups] formats| |err|].
    + right. by eexists LMain, _.
    + right. by eexists LMain, _.
    + right. by eexists LMain, _.
    + right. exists LMain. simpl. subst sm.
      destruct Hslot as [Hslot|Hnil].
      * rewrite bool_decide_eq_true_2 by (simpl; lia). by eexists.
      * rewrite Hnil in Hmain. by destruct sc.
    + right. by eexists LMain, _.
    + left. by exists err.
    + lia.
  - right. exists (LTask 0). simpl.
    destruct g as [format arch binaries|err].
    + destruct (create ctx format arch binaries st) as [[err|] st'];
        destruct m; try (by eexists); try lia; by destruct Hmain.
    + destruct m; try (by eexists); try lia; by destruct Hmain.
Qed.

Lemma doRun_ends_within n s :
  steps_left items s = n →
  doRun_inv ctx items s →
  (0 ≤ Parallelism ctx)%Z →
  (1 ≤ Parallelism ctx)%Z ∨ tasks ctx items = [] →
  ∃ schedule s', exec ctx schedule s = Some s' ∧ returned s'.
Proof.
  revert s. induction n as [|n IH]; intros s Hn Hinv Hpos Hslot.
  - destruct (doRun_progress s Hinv Hpos Hslot) as [Hret|(l & s' & Hstep)].
    + by exists [], s.
    + apply (steps_left_step _ _ _ Hinv) in Hstep. lia.
  - destruct (doRun_progress s Hinv Hpos Hslot) as [Hret|(l & s' & Hstep)].
    + by exists [], s.
    + destruct (IH s') as (schedule & s'' & Hexec & Hret).
      * apply (steps_left_step _ _ _ Hinv) in Hstep. lia.
      * by eapply doRun_inv_step.
      * done.
      * done.
      * exists (l :: schedule), s''. simpl. by rewrite Hstep.
Qed.

Lemma exec_app schedule1 schedule2 s :
  exec ctx (schedule1 ++ schedule2) s
  = match exec ctx schedule1 s with
    | Some s' => exec ctx schedule2 s'
    | None => None
    end.
Proof.
  revert s. induction schedule1 as [|l schedule1 IH]; intros s; simpl; [done|].
  by destruct (step ctx l s).
Qed.

Lemma tasks_length :
  length (tasks ctx items)
  = length (Formats (FPM_ (Config ctx)))
    * size (list_to_set (platform <$> Filter linux_binaries items) : gset string).
Proof.
  unfold tasks, platform_groups. rewrite <- GroupByPlatform_size.
  induction (Formats _) as [|format formats IH]; simpl; [done|].
  by rewrite length_app, length_map, IH.
Qed.
End Orchestrator.

(** ** The environment of the process *)

Section Environment.
Context `{World}.

Lemma prefix_append p s : String.prefix p (p +:+ s) = true.
Proof.
  induction p as [|c p IH]; [by destruct s|].
  change (String c p +:+ s) with (String c (p +:+ s)). simpl.
  by destruct (ascii_dec c c).
Qed.

Lemma substring_all s n : String.length s ≤ n → String.substring 0 n s = s.
Proof.
  revert n. induction s as [|c s IH]; intros [|n] Hn; simpl in *; try done; try lia.
  rewrite IH; [done|lia].
Qed.

Lemma substring_append p s n :
  String.length s ≤ n → String.substring (String.length p) n (p +:+ s) = s.
Proof.
  intros Hn. induction p as [|c p IH]; [by apply substring_all|].
  change (String c p +:+ s) with (String c (p +:+ s)). simpl. apply IH.
Qed.

Lemma length_append p s : String.length (p +:+ s) = String.length p + String.length s.
Proof.
  induction p as [|c p IH]; [done|].
  change (String c p +:+ s) with (String c (p +:+ s)). simpl. by rewrite IH.
Qed.

(** [os.Getenv] finds the first entry of the key. *)
Lemma lookupEnv_first before after value :
  path_entries before = [] →
  os.lookupEnv (before ++ ("PATH=" +:+ value) :: after) "PATH" = value.
Proof.
  induction before as [|e before IH]; intros Hnone.
  - cbn [app os.lookupEnv]. change ("PATH" +:+ "=") with "PATH=".
    unfold strings.HasPrefix. rewrite prefix_append.
    change (S (String.length "PATH")) with (String.length "PATH=").
    apply substring_append. rewrite length_append. lia.
  - unfold path_entries in Hnone. cbn [List.filter] in Hnone.
    cbn [app os.lookupEnv]. change ("PATH" +:+ "=") with "PATH=".
    destruct (strings.HasPrefix e "PATH="); [done|]. by apply IH.
Qed.

Lemma lookupEnv_none environ : path_entries environ = [] → os.lookupEnv environ "PATH" = "".
Proof.
  induction environ as [|e environ IH]; [done|].
  unfold path_entries. cbn [List.filter os.lookupEnv]. change ("PATH" +:+ "=") with "PATH=".
  destruct (strings.HasPrefix e "PATH="); [done|]. apply IH.
Qed.

Lemma cmd_Env_fold environ env :
  fold_left
    (fun cmd_Env e => if strings.HasPrefix e "PATH=" then cmd_Env else cmd_Env ++ [e])
    environ env
  = env ++ List.filter (fun e => negb (strings.HasPrefix e "PATH=")) environ.
Proof.
  revert env. induction environ as [|e environ IH]; intros env; simpl.
  - by rewrite app_nil_r.
  - rewrite IH. destruct (strings.HasPrefix e "PATH="); simpl; [done|].
    by rewrite <- app_assoc.
Qed.

Lemma path_entries_others environ :
  path_entries (List.filter (fun e => negb (strings.HasPrefix e "PATH=")) environ) = [].
Proof.
  unfold path_entries. induction environ as [|e environ IH]; [done|]. simpl.
  destruct (strings.HasPrefix e "PATH=") eqn:He; simpl; [done|]. by rewrite He.
Qed.

Lemma others_idem environ :
  List.filter (fun e => negb (strings.HasPrefix e "PATH="))
    (List.filter (fun e => negb (strings.HasPrefix e "PATH=")) environ)
  = List.filter (fun e => negb (strings.HasPrefix e "PATH=")) environ.
Proof.
  induction environ as [|e environ IH]; [done|]. simpl.
  destruct (strings.HasPrefix e "PATH=") eqn:He; simpl; [done|]. by rewrite He, IH.
Qed.

(** C8 — The environment of every process [create] runs is one PATH
    entry, the fixed gnu-tar directory, a colon and the PATH of the
    pipe's own environment, followed by the inherited entries other
    than PATH, unchanged and in their order: the inherited PATH entry
    is dropped and PATH is set exactly once. *)
Theorem cmd_environment ctx options :
  let env := Env (cmd ctx options) in
  let others := fun e => negb (strings.HasPrefix e "PATH=") in
  env = ("PATH=" +:+ gnuTarPath +:+ ":" +:+ os_Getenv "PATH") :: List.filter others os_Environ
  ∧ path_entries env = ["PATH=" +:+ gnuTarPath +:+ ":" +:+ os_Getenv "PATH"]
  ∧ List.filter others env = List.filter others os_Environ
  ∧ (∀ before value after,
       os_Environ = before ++ ("PATH=" +:+ value) :: after → path_entries before = [] →
       os_Getenv "PATH" = value)
  ∧ (path_entries os_Environ = [] → os_Getenv "PATH" = "")
  ∧ (∀ format arch binaries st c out err,
       EvExec c out err ∈ drop (length (trace st))
                            (trace (create ctx format arch binaries st).2) →
       Env c = env).
Proof.
  intros env others. subst env others.
  assert (Henv : Env (cmd ctx options)
                 = ("PATH=" +:+ gnuTarPath +:+ ":" +:+ os_Getenv "PATH")
                   :: List.filter (fun e => negb (strings.HasPrefix e "PATH=")) os_Environ).
  { unfold cmd. simpl. by rewrite cmd_Env_fold. }
  split; [done|]. rewrite Henv. split; [|split; [|split; [|split]]].
  - unfold path_entries at 1. cbn [List.filter]. unfold strings.HasPrefix at 1.
    rewrite prefix_append. f_equal. apply path_entries_others.
  - cbn [List.filter]. unfold strings.HasPrefix at 1. rewrite prefix_append.
    cbn [negb]. apply others_idem.
  - intros before value after Henviron Hnone. unfold os_Getenv. rewrite Henviron.
    by apply lookupEnv_first.
  - apply lookupEnv_none.
  - intros format arch binaries st c out err Hin.
    destruct (create ctx format arch binaries st) as [r st'] eqn:Hcreate.
    apply create_cases in Hcreate
      as [(e & _ & -> & _)|[(name & e & _ & _ & ->)
                           |(name & dir' & out' & err' & _ & Htrace & _)]];
      simpl in Hin.
    + rewrite drop_all in Hin. by apply elem_of_nil in Hin.
    + rewrite drop_app_length in Hin. apply list_elem_of_singleton in Hin. done.
    + rewrite Htrace, drop_app_length in Hin.
      apply elem_of_cons in Hin as [Hin|Hin]; [done|].
      apply list_elem_of_singleton in Hin. simplify_eq. unfold cmd. simpl.
      by rewrite cmd_Env_fold.
Qed.
End Environment.

(** ** Run, create and doRun *)

Section Runs.
Context `{World}.

(** A state that has returned takes no further step. *)
Lemma halted_exec ctx err st schedule s :
  exec ctx schedule (halted err st) = Some s → s = halted err st.
Proof.
  destruct schedule as [|[|i] schedule]; simpl; [by intros [= <-]|done|done].
Qed.

(** C5 — With at least one format configured and no [fpm] on the search
    path, [Run] returns [ErrNoFPM]: all it did is the lookup, no
    temporary directory was made, no process was run, no task was
    started and none will be, the artifacts are as they were. *)
Theorem Run_tool_missing ctx st :
  Formats (FPM_ (Config ctx)) ≠ [] →
  exec_LookPath_answer (trace st) "fpm" = None →
  let s := Run ctx st in
  main s = PcReturned (Some ErrNoFPM)
  ∧ trace (store s) = trace st ++ [EvLookPath "fpm" None]
  ∧ Artifacts (store s) = Artifacts st
  ∧ scheduled s = [] ∧ pool s = []
  ∧ ∀ schedule s', exec ctx schedule s = Some s' → s' = s.
Proof.
  intros Hformats Hlook. unfold Run, exec_LookPath.
  rewrite bool_decide_eq_false_2 by (by destruct (Formats _)).
  rewrite Hlook. simpl. repeat split. apply halted_exec.
Qed.

(** C6 — With no format configured, [Run] returns the skip signal, which
    is told apart from the failures; nothing was looked up, nothing was
    done to the outside world or to the artifacts, and no task was
    started or will be. *)
Theorem Run_skip ctx st :
  Formats (FPM_ (Config ctx)) = [] →
  let s := Run ctx st in
  main s = PcReturned (Some (pipeline.Skip "no output formats configured"))
  ∧ pipeline.IsSkip (pipeline.Skip "no output formats configured") = true
  ∧ pipeline.IsSkip ErrNoFPM = false
  ∧ store s = st
  ∧ scheduled s = [] ∧ pool s = []
  ∧ ∀ schedule s', exec ctx schedule s = Some s' → s' = s.
Proof.
  intros Hformats. unfold Run. rewrite Hformats. simpl. repeat split. apply halted_exec.
Qed.

(** C10 — A call of [create] that returns an error leaves the artifacts
    as they were, whether the name template failed (then nothing at all
    was done), the temporary directory could not be made, or [fpm]
    failed.  The artifacts change only in a call that returns no error,
    and then the last thing that happened is that [fpm] exited without
    error. *)
Theorem create_error_adds_nothing ctx format arch binaries st :
  let r := (create ctx format arch binaries st).1 in
  let st' := (create ctx format arch binaries st).2 in
  (∀ err, r = Returned (Some err) → Artifacts st' = Artifacts st)
  ∧ (Artifacts st' ≠ Artifacts st →
     r = Returned None ∧ ∃ c out, last (trace st') = Some (EvExec c out None))
  ∧ (∀ err,
       filenametemplate_Apply (NameTemplate (FPM_ (Config ctx)))
         (filenametemplate_NewFields ctx (Replacements (FPM_ (Config ctx))) binaries)
       = inr err →
       r = Returned (Some err) ∧ st' = st)
  ∧ (∀ err,
       EvTempDir "" "fpm" (inr err) ∈ drop (length (trace st)) (trace st') →
       r = Returned (Some err) ∧ Artifacts st' = Artifacts st)
  ∧ (∀ c out err,
       EvExec c out (Some err) ∈ drop (length (trace st)) (trace st') →
       r = Returned (Some (ErrWrap err out)) ∧ Artifacts st' = Artifacts st).
Proof.
  intros r st'. subst r st'.
  destruct (create ctx format arch binaries st) as [r st'] eqn:Hcreate. simpl.
  apply create_cases in Hcreate
    as [(e & -> & -> & Hname)|[(name & e & Hname & -> & ->)
                               |(name & dir & out & err & Hname & Htrace & Hend)]].
  - rewrite drop_all, Hname. split; [done|]. split; [done|]. split; [|split].
    + by intros err [= <-].
    + intros err Hin. by apply elem_of_nil in Hin.
    + intros c out err Hin. by apply elem_of_nil in Hin.
  - simpl. rewrite drop_app_length, Hname. split; [done|]. split; [done|]. split; [|split].
    + done.
    + intros err Hin. apply list_elem_of_singleton in Hin. split; [congruence|done].
    + intros c out err Hin. by apply list_elem_of_singleton in Hin.
  - simpl in *. rewrite Htrace, drop_app_length, Hname.
    set (c := cmd ctx _) in *.
    assert (Hlast : last (trace st ++ [EvTempDir "" "fpm" (inl dir); EvExec c out err])
                    = Some (EvExec c out err)).
    { change [EvTempDir "" "fpm" (inl dir); EvExec c out err]
        with ([EvTempDir "" "fpm" (inl dir)] ++ [EvExec c out err]).
      by rewrite !app_assoc, last_snoc. }
    rewrite Hlast.
    assert (Hexec : ∀ c' out' err',
              EvExec c' out' (Some err')
              ∈ [EvTempDir "" "fpm" (inl dir); EvExec c out err] →
              out' = out ∧ err = Some err').
    { intros c' out' err' Hin. apply elem_of_cons in Hin as [Hin|Hin]; [done|].
      apply list_elem_of_singleton in Hin. by simplify_eq. }
    assert (Hdir : ∀ err',
              EvTempDir "" "fpm" (inr err')
              ∈ [EvTempDir "" "fpm" (inl dir); EvExec c out err] → False).
    { intros err' Hin. apply elem_of_cons in Hin as [Hin|Hin]; [done|].
      by apply list_elem_of_singleton in Hin. }
    split; [|split; [|split; [|split]]].
    + intros e ->.
      by destruct Hend as [(? & _ & _ & Hart)|[(_ & _ & ? & _)|(? & ? & _ & _ & ? & _)]].
    + intros Hart.
      destruct Hend as [(? & _ & _ & ?)|[(_ & _ & _ & ?)|(b0 & rest & -> & _ & -> & _)]];
        [done|done|]. split; [done|]. by exists c, out.
    + done.
    + intros e Hin. by apply Hdir in Hin.
    + intros c' out' e Hin. apply Hexec in Hin as [-> ->].
      destruct Hend as [(? & [= <-] & -> & Hart)|[(? & _)|(? & ? & ? & _)]]; done.
Qed.

Lemma step_empty_pool ctx s i : pool s = [] → step ctx (LTask i) s = None.
Proof. intros Hpool. simpl. rewrite Hpool. by destruct (main s). Qed.

Lemma step_create ctx s i format arch binaries s' :
  pool s !! i = Some (GoCreate format arch binaries) →
  step ctx (LTask i) s = Some s' →
  match create ctx format arch binaries (store s) with
  | (Returned err, st') =>
      s' = mkState (main s) (sem s) (<[i:=GoDefer err]> (pool s)) (g_err s) (scheduled s) st'
  | (Panicked, st') =>
      s' = mkState PcPanicked (sem s) (pool s) (g_err s) (scheduled s) st'
  end.
Proof.
  intros Hi. simpl. rewrite Hi.
  destruct (create ctx format arch binaries (store s)) as [[err|] st'];
    destruct (main s); by intros [= <-].
Qed.

Lemma doRun_inv_scheduled ctx items s :
  doRun_inv ctx items s → (0 ≤ Parallelism ctx)%Z →
  length (scheduled s) ≤ length (tasks ctx items)
  ∧ (returned s → scheduled s = tasks ctx items).
Proof.
  intros (_ & _ & _ & _ & Hmain) Hpos. split.
  - destruct (main s); try lia; try (rewrite <- Hmain, length_app; lia).
    destruct Hmain as (_ & _ & ->). done.
  - intros [err Hret]. rewrite Hret in Hmain. by destruct Hmain as (_ & _ & ->).
Qed.

Lemma tasks_none ctx items : Filter linux_binaries items = [] → tasks ctx items = [].
Proof.
  intros Hnone. unfold tasks, platform_groups. rewrite Hnone, GroupByPlatform_nil.
  rewrite map_to_list_empty. by induction (Formats _).
Qed.

(** With no task to start, the calling goroutine goes through its loops
    alone: the pool stays empty, the store and the error of the group
    stay as they are. *)
Lemma quiet_step ctx items l s s' :
  doRun_inv ctx items s → tasks ctx items = [] →
  pool s = [] → step ctx l s = Some s' →
  pool s' = [] ∧ store s' = store s ∧ g_err s' = g_err s ∧ scheduled s' = scheduled s.
Proof.
  destruct s as [m sm pl ge sc st].
  intros (_ & _ & _ & _ & Hmain) Hnone Hpool. simpl in *. subst pl.
  destruct l as [|i]; simpl.
  - destruct m as [[|format formats]|format [|[platform artifacts] groups] formats| | |];
      try done; try (by intros [= <-]).
    rewrite Hnone in Hmain. by destruct sc.
  - by destruct m.
Qed.

(** C7 — When the filter selects no Linux binary (and the parallelism
    is a capacity [make] takes for the channel: not negative, and
    within [makechan_bound]; beyond what the runtime can allocate
    [doRun] panics before its first loop),
    [doRun] starts no task whatever the formats: under every schedule
    the pool stays empty and the store, artifacts included, stays as it
    was; [doRun] comes to its end and what it returns is nil. *)
Theorem doRun_no_linux_binaries ctx st :
  Filter linux_binaries (Artifacts st) = [] →
  (0 ≤ Parallelism ctx)%Z →
  (Parallelism ctx ≤ makechan_bound)%Z →
  (∃ schedule s, exec ctx schedule (doRun ctx st) = Some s ∧ main s = PcReturned None)
  ∧ ∀ schedule s,
      exec ctx schedule (doRun ctx st) = Some s →
      scheduled s = [] ∧ pool s = [] ∧ store s = st
      ∧ (∀ err, main s = PcReturned err → err = None)
      ∧ ∃ schedule' s',
          exec ctx (schedule ++ schedule') (doRun ctx st) = Some s'
          ∧ main s' = PcReturned None.
Proof.
  intros Hfilter Hpos _.
  pose proof (tasks_none ctx _ Hfilter) as Hnone.
  pose proof (doRun_inv_start ctx (Artifacts st) st eq_refl) as Hstart.
  assert (Hquiet : ∀ schedule s0 s,
            doRun_inv ctx (Artifacts st) s0 → pool s0 = [] →
            exec ctx schedule s0 = Some s →
            pool s = [] ∧ store s = store s0 ∧ g_err s = g_err s0
            ∧ scheduled s = scheduled s0).
  { induction schedule as [|l schedule IH]; intros s0 s Hinv Hpool; simpl.
    - by intros [= <-].
    - destruct (step ctx l s0) as [s1|] eqn:Hstep; [|done]. intros Hexec.
      destruct (quiet_step _ _ _ _ _ Hinv Hnone Hpool Hstep) as (Hp & Hs & Hg & Hsc).
      destruct (IH s1 s) as (? & ? & ? & ?); [by eapply doRun_inv_step|done|done|].
      repeat split; congruence. }
  assert (Hinit : pool (doRun ctx st) = [] ∧ store (doRun ctx st) = st
                  ∧ g_err (doRun ctx st) = None ∧ scheduled (doRun ctx st) = []).
  { unfold doRun. by case_bool_decide. }
  destruct Hinit as (Hp0 & Hs0 & Hg0 & Hsc0).
  assert (Hall : ∀ schedule s,
            exec ctx schedule (doRun ctx st) = Some s →
            scheduled s = [] ∧ pool s = [] ∧ store s = st
            ∧ (∀ err, main s = PcReturned err → err = None)).
  { intros schedule s Hexec.
    destruct (Hquiet _ _ _ Hstart Hp0 Hexec) as (Hp & Hs & Hg & Hsc).
    pose proof (doRun_inv_exec ctx _ _ _ _ Hstart Hexec) as (_ & _ & _ & _ & Hmain).
    repeat split; try congruence.
    intros err Hret. rewrite Hret in Hmain. destruct Hmain as (_ & -> & _). congruence. }
  assert (Hend : ∀ schedule s,
            exec ctx schedule (doRun ctx st) = Some s →
            ∃ schedule' s',
              exec ctx (schedule ++ schedule') (doRun ctx st) = Some s'
              ∧ main s' = PcReturned None).
  { intros schedule s Hexec.
    pose proof (doRun_inv_exec ctx _ _ _ _ Hstart Hexec) as Hinv.
    destruct (doRun_ends_within ctx (Artifacts st) _ s eq_refl Hinv)
      as (schedule' & s' & Hexec' & [err Hret]); [done|by right|].
    exists schedule', s'.
    assert (Hfull : exec ctx (schedule ++ schedule') (doRun ctx st) = Some s').
    { by rewrite exec_app, Hexec. }
    split; [done|]. rewrite Hret. f_equal.
    by apply (Hall _ _ Hfull). }
  split.
  - destruct (Hend [] (doRun ctx st) eq_refl) as (schedule & s & Hexec & Hret).
    by exists schedule, s.
  - intros schedule s Hexec.
    destruct (Hall _ _ Hexec) as (? & ? & ? & ?). repeat split; try done.
    by eapply Hend.
Qed.

(** C9 — In every state [doRun] can reach, under any schedule, each
    goroutine of the pool holds one slot of [sem], and they are at most
    as many as the parallelism (none when it is negative: [doRun] then
    panics at once).  A goroutine enters the pool only in the step of
    the calling goroutine that first takes a free slot; a goroutine
    whose [create] has returned can always take its last step, whatever
    [create] returned, and that step gives the slot back; a [create]
    that is running can always return.  When [doRun] returns no slot
    is held. *)
Theorem doRun_bounded ctx st schedule s :
  exec ctx schedule (doRun ctx st) = Some s →
  sem s = in_flight s
  ∧ (Z.of_nat (in_flight s) ≤ Z.max 0 (Parallelism ctx))%Z
  ∧ (∀ l s',
       step ctx l s = Some s' →
       (l = LMain ∧ (Z.of_nat (sem s) < Parallelism ctx)%Z
        ∧ sem s' = S (sem s) ∧ in_flight s' = S (in_flight s))
       ∨ (sem s' = sem s ∧ in_flight s' = in_flight s)
       ∨ (∃ i err, l = LTask i ∧ pool s !! i = Some (GoDefer err)
                   ∧ S (sem s') = sem s ∧ S (in_flight s') = in_flight s))
  ∧ (∀ i err,
       pool s !! i = Some (GoDefer err) →
       ∃ s', step ctx (LTask i) s = Some s' ∧ S (sem s') = sem s
             ∧ S (in_flight s') = in_flight s)
  ∧ (∀ i format arch binaries,
       pool s !! i = Some (GoCreate format arch binaries) →
       ∃ s' err, step ctx (LTask i) s = Some s' ∧ pool s' !! i = Some (GoDefer err))
  ∧ (returned s → sem s = 0).
Proof.
  intros Hexec.
  pose proof (doRun_inv_start ctx (Artifacts st) st eq_refl) as Hstart.
  pose proof (doRun_inv_exec ctx (Artifacts st) _ _ _ Hstart Hexec) as Hinv.
  assert (Hstep : ∀ l s', step ctx l s = Some s' → doRun_inv ctx (Artifacts st) s').
  { intros l s'. by apply doRun_inv_step. }
  destruct Hinv as (Hsem & Hcap & Hart & Hpool & Hmain).
  assert (Hlive : pool s ≠ [] → main s ≠ PcPanicked ∧ ∀ err, main s ≠ PcReturned err).
  { intros Hne. split.
    - intros Hm. rewrite Hm in Hmain. destruct (pool s); [done|]. simpl in Hcap. lia.
    - intros err Hm. rewrite Hm in Hmain. by destruct Hmain. }
  unfold in_flight. split; [done|]. split; [done|]. split; [|split; [|split]].
  - intros l s' Hs'. destruct (Hstep _ _ Hs') as (Hsem' & _).
    destruct s as [m sm pl ge sc stx]. simpl in *.
    destruct l as [|i]; simpl in Hs'.
    + destruct m as [[|format formats]|format [|[platform artifacts] groups] formats| | |];
        try done; try (injection Hs' as <-; by right; left).
      * case_bool_decide as Hfree; [|done]. injection Hs' as <-. left. simpl.
        rewrite length_app. simpl. repeat split; try done; lia.
      * destruct pl; [|done]. injection Hs' as <-. by right; left.
    + destruct (pl !! i) as [[format arch binaries|err]|] eqn:Hi.
      * destruct (create ctx format arch binaries stx) as [[err|] st'];
          destruct m; try done; injection Hs' as <-; right; left; simpl;
          rewrite ?length_insert; done.
      * right. right. exists i, err.
        assert (Hlen : S (length (delete i pl)) = length pl).
        { rewrite length_delete by eauto. apply lookup_lt_Some in Hi. lia. }
        assert (Hlt : 0 < length pl) by (apply lookup_lt_Some in Hi; lia).
        destruct m; try done; injection Hs' as <-; simpl; repeat split; try done; lia.
      * by destruct m.
  - intros i err Hi.
    destruct Hlive as [Hnp Hnr]; [by destruct (pool s)|].
    assert (Hlen : S (length (delete i (pool s))) = length (pool s)).
    { rewrite length_delete by eauto. apply lookup_lt_Some in Hi. lia. }
    assert (Hlt : 0 < length (pool s)) by (apply lookup_lt_Some in Hi; lia).
    simpl. rewrite Hi.
    destruct (main s); try done; (eexists; split; [done|]); simpl; lia.
  - intros i format arch binaries Hi.
    destruct Hlive as [Hnp Hnr]; [by destruct (pool s)|].
    pose proof (Forall_lookup_1 _ _ _ _ Hpool Hi) as [Hbinaries _].
    assert (Hlt : i < length (pool s)) by (by eapply lookup_lt_Some).
    simpl. rewrite Hi.
    destruct (create ctx format arch binaries (store s)) as [r st'] eqn:Hcreate.
    apply create_artifacts in Hcreate as [_ Hpanic].
    destruct r as [err|]; [|by specialize (Hpanic eq_refl)].
    destruct (main s) eqn:Hm; try done;
      (eexists _, err; split; [done|]); simpl; by rewrite list_lookup_insert_eq.
  - intros [err Hret]. rewrite Hret in Hmain. destruct Hmain as (Hnil & _).
    by rewrite Hsem, Hnil.
Qed.
End Runs.

(** ** The theorems at work on concrete runs *)

Section Worked.
Import Examples.

Lemma ends_with_rev a b tokens :
  ends_with a b tokens → ∃ before, rev tokens = b :: a :: before.
Proof. intros [before ->]. exists (rev before). by rewrite rev_app_distr. Qed.

(** C3, as stated, fails: for the format rpm and one binary, [create]
    runs [fpm] on a sequence that has the pair --rpm-os linux but ends
    with the mapping token of the binary. *)
Lemma rpm_pair_before_mappings :
  ∃ c out st,
    create (H:=world) (ctx ["rpm"] 4) "rpm" "amd64" [app] (store0 [app])
    = (Returned None, st)
    ∧ last (trace st) = Some (EvExec c out None)
    ∧ last (Args c) = Some "dist/linux_amd64/app=/usr/local/bin/app"
    ∧ has_pair "--rpm-os" "linux" (Args c)
    ∧ ¬ ends_with "--rpm-os" "linux" (Args c).
Proof.
  eexists _, _, _. split; [vm_compute; reflexivity|].
  split; [reflexivity|]. split; [reflexivity|]. split.
  - exists [ "--input-type"; "dir"; "--output-type"; "rpm"; "--name"; "app";
             "--version"; "1.2.3"; "--architecture"; "amd64";
             "--package"; "dist/app_1.2.3_linux_amd64.rpm"; "--force";
             "--workdir"; "/tmp/fpm"; "--url"; "https://example.org";
             "--license"; "MIT"; "--depends"; "libc6" ],
           [ "dist/linux_amd64/app=/usr/local/bin/app" ].
    reflexivity.
  - intros Hends. apply ends_with_rev in Hends as [before Hrev].
    vm_compute in Hrev. discriminate Hrev.
Qed.

Lemma createOptions_rpm_pair_witness :
  ends_with "--rpm-os" "linux" (basicOptions (ctx ["rpm"] 4) "/tmp/fpm" "rpm" "amd64" "dist/a.rpm")
  ∧ ¬ has_pair "--rpm-os" "linux"
        (createOptions (H:=world) (ctx ["deb"] 4) "/tmp/fpm" "deb" "amd64" "dist/a.deb" [app]).
Proof.
  split.
  - by apply (createOptions_rpm_pair (H:=world) (ctx ["rpm"] 4)
                "/tmp/fpm" "rpm" "amd64" "dist/a.rpm" [app]).
  - intros Hpair.
    by apply (createOptions_rpm_pair (H:=world) (ctx ["deb"] 4)
                "/tmp/fpm" "deb" "amd64" "dist/a.deb" [app]) in Hpair.
Defined.

Lemma Run_tool_missing_witness :
  Formats (FPM_ (Config ctx2)) ≠ []
  ∧ exec_LookPath_answer (World:=world_no_fpm) (trace (store0 items4)) "fpm" = None
  ∧ main (Run (H:=world_no_fpm) ctx2 (store0 items4)) = PcReturned (Some ErrNoFPM)
  ∧ trace (store (Run (H:=world_no_fpm) ctx2 (store0 items4))) = [EvLookPath "fpm" None].
Proof.
  assert (Hformats : Formats (FPM_ (Config ctx2)) ≠ []) by (simpl; discriminate).
  assert (Hlook : exec_LookPath_answer (World:=world_no_fpm) (trace (store0 items4)) "fpm"
                  = None) by reflexivity.
  split; [exact Hformats|]. split; [exact Hlook|].
  destruct (Run_tool_missing (H:=world_no_fpm) ctx2 (store0 items4) Hformats Hlook)
    as (Hmain & Htrace & _).
  split; [exact Hmain|exact Htrace].
Defined.

Lemma Run_skip_witness :
  Formats (FPM_ (Config (ctx [] 4))) = []
  ∧ main (Run (H:=world) (ctx [] 4) (store0 items4))
    = PcReturned (Some (ErrSkip "no output formats configured"))
  ∧ store (Run (H:=world) (ctx [] 4) (store0 items4)) = store0 items4.
Proof.
  assert (Hformats : Formats (FPM_ (Config (ctx [] 4))) = []) by reflexivity.
  split; [exact Hformats|].
  destruct (Run_skip (H:=world) (ctx [] 4) (store0 items4) Hformats)
    as (Hmain & _ & _ & Hstore & _).
  split; [exact Hmain|exact Hstore].
Defined.

Lemma doRun_no_linux_binaries_witness :
  Filter linux_binaries (Artifacts (store0 [app_darwin])) = []
  ∧ (0 ≤ Parallelism ctx2)%Z
  ∧ (Parallelism ctx2 ≤ makechan_bound)%Z
  ∧ ∃ schedule s,
      exec (H:=world) ctx2 schedule (doRun ctx2 (store0 [app_darwin])) = Some s
      ∧ main s = PcReturned None ∧ scheduled s = []
      ∧ store s = store0 [app_darwin].
Proof.
  assert (Hfilter : Filter linux_binaries (Artifacts (store0 [app_darwin])) = [])
    by reflexivity.
  assert (Hpar : (0 ≤ Parallelism ctx2)%Z) by (simpl; lia).
  assert (Hmax : (Parallelism ctx2 ≤ makechan_bound)%Z) by (vm_compute; discriminate).
  split; [exact Hfilter|]. split; [exact Hpar|]. split; [exact Hmax|].
  destruct (doRun_no_linux_binaries (H:=world) ctx2 (store0 [app_darwin]) Hfilter Hpar Hmax)
    as [(schedule & s & Hexec & Hret) Hall].
  exists schedule, s. split; [exact Hexec|]. split; [exact Hret|].
  destruct (Hall schedule s Hexec) as (Hsched & _ & Hstore & _).
  split; [exact Hsched|exact Hstore].
Defined.

Example basicOptions_rpm :
  basicOptions (ctx ["rpm"] 4) "/tmp/fpm" "rpm" "amd64" "dist/a.rpm"
  = [ "--input-type"; "dir"; "--output-type"; "rpm"; "--name"; "app";
      "--version"; "1.2.3"; "--architecture"; "amd64"; "--package"; "dist/a.rpm";
      "--force"; "--workdir"; "/tmp/fpm";
      "--url"; "https://example.org"; "--license"; "MIT"; "--depends"; "libc6";
      "--rpm-os"; "linux" ].
Proof. reflexivity. Qed.

Example cmd_Env_example :
  Env (cmd (H:=world) ctx2 [])
  = [ "PATH=/usr/local/opt/gnu-tar/libexec/gnubin:/usr/bin:/bin"; "HOME=/root"; "LANG=C" ].
Proof. reflexivity. Qed.

Example create_fpm_fails :
  ∃ c,
    create (H:=world_fpm_fails) (ctx ["deb"] 4) "deb" "amd64" [app] (store0 [app])
    = (Returned (Some (ErrWrap (ErrExternal "exit status 1") "boom")),
       mkStore [app]
         [EvTempDir "" "fpm" (inl "/tmp/fpm");
          EvExec c "boom" (Some (ErrExternal "exit status 1"))]).
Proof. eexists. vm_compute. reflexivity. Qed.

(** The example of the spec: one format, one platform group with two
    binaries; one task, one package, the two mapping tokens in the order
    of the binaries. *)
Example deb_two_binaries :
  let c := ctx ["deb"] 4 in
  let start := Run (H:=world) c (store0 [app; helper]) in
  ∃ s c',
    exec (H:=world) c (run_in_turn (H:=world) c 20 start) start = Some s
    ∧ main s = PcReturned None
    ∧ length (scheduled s) = 1
    ∧ Artifacts (store s)
      = [app; helper;
         mkArtifact LinuxPackage "app_1.2.3_linux_amd64.deb"
           "dist/app_1.2.3_linux_amd64.deb" "linux" "amd64" ""]
    ∧ last (trace (store s)) = Some (EvExec c' "" None)
    ∧ drop 21 (Args c')
      = ["dist/linux_amd64/app=/usr/local/bin/app";
         "dist/linux_amd64/app-helper=/usr/local/bin/app-helper"].
Proof. eexists _, _. split; [vm_compute; reflexivity|]. by repeat split. Qed.

(** Why the parallelism has to be positive for [doRun] to end: with no
    slot at all the first send blocks for ever, no task is started and
    [doRun] does not return. *)
Remark doRun_without_slot schedule s :
  exec (H:=world) (ctx ["deb"] 0) schedule (doRun (ctx ["deb"] 0) (store0 items4)) = Some s →
  scheduled s = [] ∧ pool s = [] ∧ ¬ returned s.
Proof.
  set (c := ctx ["deb"] 0). set (s0 := doRun c (store0 items4)).
  destruct schedule as [|[|i] schedule]; cbn [exec].
  - intros [= <-]. repeat split. intros [err Herr]. discriminate Herr.
  - destruct (step (H:=world) c LMain s0) as [s1|] eqn:Hs1; [|done].
    vm_compute in Hs1. injection Hs1 as <-.
    destruct schedule as [|[|j] schedule]; cbn [exec].
    + intros [= <-]. repeat split. intros [err Herr]. discriminate Herr.
    + match goal with
      | |- context [step c LMain ?s1] =>
          assert (Hblocked : step (H:=world) c LMain s1 = None) by (vm_compute; reflexivity)
      end.
      by rewrite Hblocked.
    + by rewrite step_empty_pool.
  - by rewrite step_empty_pool.
Qed.

Lemma doRun_bounded_witness :
  ∃ s, exec (H:=world) ctx2 two_in_flight (doRun ctx2 (store0 items4)) = Some s
       ∧ in_flight s = 2
       ∧ sem s = in_flight s
       ∧ (Z.of_nat (in_flight s) ≤ Z.max 0 (Parallelism ctx2))%Z.
Proof.
  destruct (exec (H:=world) ctx2 two_in_flight (doRun ctx2 (store0 items4)))
    as [s|] eqn:Hexec; [|vm_compute in Hexec; discriminate Hexec].
  exists s. split; [reflexivity|].
  destruct (doRun_bounded (H:=world) ctx2 (store0 items4) two_in_flight s Hexec)
    as (Hsem & Hcap & _).
  split; [|split; [exact Hsem|exact Hcap]].
  vm_compute in Hexec. injection Hexec as <-. reflexivity.
Defined.
End Worked.

(** * Further properties of the pipe *)

(** ** The defaults *)

Section Defaults.
Context `{World}.

Ltac fields :=
  cbn [set_FPM set_Bindir set_NameTemplate FPM_ Config Bindir NameTemplate Formats
       Replacements Dependencies Conflicts Vendor Homepage Maintainer Description License
       Files ProjectName Dist Version Debug Parallelism fst snd].

(** [Default], field by field. *)
Lemma Default_eq ctx :
  let fpm := FPM_ (Config ctx) in
  Default ctx
  = (set_FPM ctx
       (set_NameTemplate
          (set_Bindir fpm (if bool_decide (Bindir fpm = "") then "/usr/local/bin" else Bindir fpm))
          (if bool_decide (NameTemplate fpm = "") then defaultNameTemplate
           else NameTemplate fpm)),
     if bool_decide (0 < length (Formats fpm)) then ["fpm"] else [],
     None).
Proof.
  destruct ctx as [[name dist [tmpl repl formats deps confl vendor home maint descr lic bindir files]]
                     version debug par].
  unfold Default. fields. by repeat case_bool_decide.
Qed.

(** X1 — [Default] returns no error and leaves a [Bindir] and a
    [NameTemplate] that are not empty: a value that was set is kept, an
    empty one becomes the default.  It changes no other field (putting
    the two old values back gives the old context), running it twice is
    running it once, the notice is given exactly when a format is
    configured, and the builder writes the same before and after (what
    [create] makes of the name template and of the bindir is what
    changes). *)
Theorem Default_defaults ctx :
  let ctx' := (Default ctx).1.1 in
  let fpm := FPM_ (Config ctx) in
  let fpm' := FPM_ (Config ctx') in
  (Default ctx).2 = None
  ∧ Bindir fpm' ≠ "" ∧ NameTemplate fpm' ≠ ""
  ∧ (Bindir fpm ≠ "" → Bindir fpm' = Bindir fpm)
  ∧ (NameTemplate fpm ≠ "" → NameTemplate fpm' = NameTemplate fpm)
  ∧ (Bindir fpm = "" → Bindir fpm' = "/usr/local/bin")
  ∧ (NameTemplate fpm = "" → NameTemplate fpm' = defaultNameTemplate)
  ∧ set_FPM ctx' (set_NameTemplate (set_Bindir fpm' (Bindir fpm)) (NameTemplate fpm)) = ctx
  ∧ Default ctx' = Default ctx
  ∧ ((Default ctx).1.2 = ["fpm"] ↔ Formats fpm ≠ [])
  ∧ ((Default ctx).1.2 = [] ↔ Formats fpm = [])
  ∧ (∀ workdir format arch file,
       basicOptions ctx' workdir format arch file = basicOptions ctx workdir format arch file).
Proof.
  intros ctx' fpm fpm'. subst ctx' fpm'.
  rewrite (Default_eq (Default ctx).1.1), !(Default_eq ctx). fold fpm. fields.
  set (bindir' := if bool_decide (Bindir fpm = "") then "/usr/local/bin" else Bindir fpm).
  set (template' := if bool_decide (NameTemplate fpm = "") then defaultNameTemplate
                    else NameTemplate fpm).
  assert (Hbindir : bindir' ≠ "") by (subst bindir'; by case_bool_decide).
  assert (Htemplate : template' ≠ "") by (subst template'; by case_bool_decide).
  rewrite !bool_decide_eq_false_2 by done.
  split; [done|]. split; [done|]. split; [done|].
  split; [subst bindir'; by case_bool_decide|].
  split; [subst template'; by case_bool_decide|].
  split; [subst bindir'; by case_bool_decide|].
  split; [subst template'; by case_bool_decide|].
  split.
  { subst fpm.
    by destruct ctx as [[? ? []] ? ? ?]. }
  split; [done|].
  assert (Hlen : 0 < length (Formats fpm) ↔ Formats fpm ≠ []).
  { destruct (Formats fpm); simpl; split; try done; lia. }
  split.
  { case_bool_decide as Hf.
    - apply Hlen in Hf. by split.
    - split; [done|]. intros Hne. by apply Hlen in Hne. }
  split.
  { case_bool_decide as Hf.
    - apply Hlen in Hf. by split.
    - split; [|done]. intros _. destruct (Formats fpm); [done|]. exfalso. apply Hf. simpl. lia. }
  done.
Qed.
End Defaults.

(** ** The builder, read back *)

Section Decoding.

Lemma optional_group_inj flag value1 value2 :
  optional_group flag value1 = optional_group flag value2 → value1 = value2.
Proof.
  unfold optional_group. repeat case_bool_decide; intros Heq; simplify_eq; try done.
Qed.

Lemma map_group_inj flag (values1 values2 : list string) :
  map (fun value => [flag; value]) values1 = map (fun value => [flag; value]) values2 →
  values1 = values2.
Proof.
  revert values2. induction values1 as [|v values1 IH]; intros [|w values2] Heq;
    simpl in Heq; try done.
  injection Heq as -> Heq. f_equal. by apply IH.
Qed.

(** The groups with the flag [flag] on both sides of an equation
    between two results of the builder. *)
Ltac groups_with flag H Hnew :=
  pose proof (f_equal (with_flag flag) H) as Hnew;
  rewrite !with_flag_app, !with_flag_debug_groups, !with_flag_metadata_groups,
    !with_flag_rpm_groups in Hnew;
  simpl in Hnew; rewrite ?app_nil_r in Hnew.

(** X2 — The builder loses nothing: two calls with the same result were
    given the same working directory, format, architecture and file, and
    contexts with the same project name, version, debug mode, vendor,
    homepage, maintainer, description, license, dependencies and
    conflicts. *)
Theorem basicOptions_inj ctx1 ctx2 workdir1 workdir2 format1 format2 arch1 arch2 file1 file2 :
  basicOptions ctx1 workdir1 format1 arch1 file1
  = basicOptions ctx2 workdir2 format2 arch2 file2 →
  workdir1 = workdir2 ∧ format1 = format2 ∧ arch1 = arch2 ∧ file1 = file2
  ∧ ProjectName (Config ctx1) = ProjectName (Config ctx2)
  ∧ Version ctx1 = Version ctx2
  ∧ Debug ctx1 = Debug ctx2
  ∧ Vendor (FPM_ (Config ctx1)) = Vendor (FPM_ (Config ctx2))
  ∧ Homepage (FPM_ (Config ctx1)) = Homepage (FPM_ (Config ctx2))
  ∧ Maintainer (FPM_ (Config ctx1)) = Maintainer (FPM_ (Config ctx2))
  ∧ Description (FPM_ (Config ctx1)) = Description (FPM_ (Config ctx2))
  ∧ License (FPM_ (Config ctx1)) = License (FPM_ (Config ctx2))
  ∧ Dependencies (FPM_ (Config ctx1)) = Dependencies (FPM_ (Config ctx2))
  ∧ Conflicts (FPM_ (Config ctx1)) = Conflicts (FPM_ (Config ctx2)).
Proof.
  intros Heq. apply (f_equal token_groups) in Heq.
  rewrite !token_groups_basicOptions in Heq.
  groups_with "--vendor" Heq Hvendor. apply optional_group_inj in Hvendor.
  groups_with "--url" Heq Hurl. apply optional_group_inj in Hurl.
  groups_with "--maintainer" Heq Hmaint. apply optional_group_inj in Hmaint.
  groups_with "--description" Heq Hdescr. apply optional_group_inj in Hdescr.
  groups_with "--license" Heq Hlic. apply optional_group_inj in Hlic.
  groups_with "--depends" Heq Hdeps. apply map_group_inj in Hdeps.
  groups_with "--conflicts" Heq Hconfl. apply map_group_inj in Hconfl.
  groups_with "--debug" Heq Hdebug.
  assert (Hd : Debug ctx1 = Debug ctx2).
  { unfold debug_groups in Hdebug. by destruct (Debug ctx1), (Debug ctx2). }
  unfold required_groups in Heq. simpl in Heq. by simplify_eq.
Qed.
End Decoding.

(** ** One packaging task *)

Section Task.
Context `{World}.

Lemma basicOptions_lookup ctx workdir format arch file tokens :
  (basicOptions ctx workdir format arch file ++ tokens) !! 3 = Some format
  ∧ (basicOptions ctx workdir format arch file ++ tokens) !! 9 = Some arch
  ∧ (basicOptions ctx workdir format arch file ++ tokens) !! 10 = Some "--package"
  ∧ (basicOptions ctx workdir format arch file ++ tokens) !! 11 = Some file
  ∧ (basicOptions ctx workdir format arch file ++ tokens) !! 13 = Some "--workdir"
  ∧ (basicOptions ctx workdir format arch file ++ tokens) !! 14 = Some workdir.
Proof. rewrite basicOptions_concat. unfold required_groups. by repeat split. Qed.

(** X3 — A task with no binary never ends well: [create] on an empty
    group does not return nil, and adds no artifact. *)
Theorem create_no_binaries ctx format arch st :
  let r := (create ctx format arch [] st).1 in
  let st' := (create ctx format arch [] st).2 in
  r ≠ Returned None ∧ Artifacts st' = Artifacts st.
Proof.
  intros r st'. subst r st'.
  destruct (create ctx format arch [] st) as [r st'] eqn:Hcreate. simpl.
  apply create_cases in Hcreate
    as [(e & -> & -> & _)|[(name & e & _ & -> & ->)
                          |(name & dir & out & err & _ & Htrace & Hend)]];
    [done|done|].
  by destruct Hend as [(e & _ & -> & ->)|[(_ & _ & -> & ->)|(b0 & rest & _ & ? & _)]].
Qed.

(** X4 — The temporary directories and the commands of a task, whatever
    its result: it asks for one temporary directory at most and runs one
    command at most, [fpm], and that only after it was given a temporary
    directory, which is the --workdir of the arguments; the format and
    the architecture label of the task are in the arguments.  It asks
    for no temporary directory exactly when the name template fails, and
    runs a command exactly when it was given a temporary directory. *)
Theorem create_outside_calls ctx format arch binaries st :
  let st' := (create ctx format arch binaries st).2 in
  let new := drop (length (trace st)) (trace st') in
  let dirs := List.filter is_TempDir new in
  let runs := List.filter is_Exec new in
  trace st' = trace st ++ new
  ∧ length dirs ≤ 1 ∧ length runs ≤ 1
  ∧ (∀ c out err,
       EvExec c out err ∈ new →
       CmdName c = "fpm"
       ∧ Args c !! 3 = Some format ∧ Args c !! 9 = Some arch
       ∧ ∃ dir before after,
           new = before ++ EvTempDir "" "fpm" (inl dir) :: after
           ∧ EvExec c out err ∈ after
           ∧ Args c !! 13 = Some "--workdir" ∧ Args c !! 14 = Some dir)
  ∧ (dirs = []
     ↔ ∃ err,
         filenametemplate_Apply (NameTemplate (FPM_ (Config ctx)))
           (filenametemplate_NewFields ctx (Replacements (FPM_ (Config ctx))) binaries)
         = inr err)
  ∧ (runs ≠ [] ↔ ∃ dir, EvTempDir "" "fpm" (inl dir) ∈ new).
Proof.
  intros st' new dirs runs. subst st' new dirs runs.
  destruct (create ctx format arch binaries st) as [r st'] eqn:Hcreate. simpl.
  apply create_cases in Hcreate
    as [(e & -> & -> & Hname)|[(name & e & Hname & -> & ->)
                              |(name & dir & out & err & Hname & Htrace & Hend)]].
  - rewrite drop_all, app_nil_r. simpl.
    split; [done|]. split; [lia|]. split; [lia|]. split; [|split].
    + intros c out err Hin. by apply elem_of_nil in Hin.
    + split; [eauto|done].
    + split; [done|]. intros [dir Hin]. by apply elem_of_nil in Hin.
  - simpl. rewrite drop_app_length. simpl.
    split; [done|]. split; [lia|]. split; [lia|]. split; [|split].
    + intros c out err Hin. by apply list_elem_of_singleton in Hin.
    + split; [done|]. intros [err Herr]. congruence.
    + split; [done|]. intros [dir Hin]. by apply list_elem_of_singleton in Hin.
  - simpl in Htrace. rewrite Htrace, drop_app_length. simpl.
    split; [done|]. split; [lia|]. split; [lia|]. split; [|split].
    + intros c out' err' Hin. apply elem_of_cons in Hin as [Hin|Hin]; [done|].
      apply list_elem_of_singleton in Hin. injection Hin as -> -> ->.
      cbn [CmdName Args cmd]. rewrite createOptions_split.
      split; [done|]. split; [apply basicOptions_lookup|].
      split; [apply basicOptions_lookup|].
      exists dir, [], [EvExec (cmd ctx (basicOptions ctx dir format arch
                                 (filepath_Join (Dist (Config ctx)) name +:+ "." +:+ format)
                               ++ mapping_tokens ctx binaries)) out err].
      split; [by rewrite <- createOptions_split|]. split; [left|].
      split; apply basicOptions_lookup.
    + split; [done|]. intros [e Herr]. congruence.
    + split; [|done]. intros _. exists dir. left.
Qed.

(** X5 — When a task ends well, the package it records is the file
    [fpm] was told to write: the path of the new artifact is the value
    of --package in the arguments of the process, which exited without
    error and was the last thing the task did; and every binary of the
    task has its mapping token, source path = place under the bindir,
    after the builder's tokens and in the order of the binaries. *)
Theorem create_package_file ctx format arch binaries st st' :
  create ctx format arch binaries st = (Returned None, st') →
  ∃ pkg c out dir,
    Artifacts st' = Artifacts st ++ [pkg]
    ∧ last (trace st') = Some (EvExec c out None)
    ∧ Args c !! 10 = Some "--package" ∧ Args c !! 11 = Some (Path pkg)
    ∧ ∀ i binary,
        binaries !! i = Some binary →
        Args c !! (length (basicOptions ctx dir format arch (Path pkg)) + i)
        = Some (Path binary +:+ "=" +:+ filepath_Join (Bindir (FPM_ (Config ctx))) (Name binary)).
Proof.
  intros Hcreate.
  apply create_cases in Hcreate
    as [(e & ? & _)|[(name & e & _ & ? & _)
                    |(name & dir & out & err & Hname & Htrace & Hend)]]; [done|done|].
  destruct Hend as [(e & _ & ? & _)|[(_ & _ & ? & _)|(b0 & rest & -> & Hb & _ & Hart)]];
    [done|done|].
  simpl in *. eexists _, _, out, dir. split; [exact Hart|].
  split.
  { rewrite Htrace.
    change [EvTempDir "" "fpm" (inl dir); ?e] with ([EvTempDir "" "fpm" (inl dir)] ++ [e]).
    by rewrite !app_assoc, last_snoc. }
  cbn [Args cmd Path]. rewrite createOptions_split.
  split; [apply basicOptions_lookup|]. split; [apply basicOptions_lookup|].
  intros i binary Hi. rewrite lookup_app_r by lia.
  replace (_ + i - _) with i by lia.
  unfold mapping_tokens. rewrite lookup_app_l.
  - by rewrite list_lookup_fmap, Hi.
  - rewrite length_map. by eapply lookup_lt_Some.
Qed.

(** X12 — After the builder's tokens and the mapping tokens of the
    binaries, the arguments have one token per entry of the extra files
    and nothing else: every configured pair source, destination is there
    as source=destination, whatever the order the map is ranged over. *)
Theorem createOptions_files ctx dir format arch file binaries :
  let options := createOptions ctx dir format arch file binaries in
  let basic := basicOptions ctx dir format arch file in
  let extra := drop (length basic + length binaries) options in
  length options = length basic + length binaries + size (Files (FPM_ (Config ctx)))
  ∧ length extra = size (Files (FPM_ (Config ctx)))
  ∧ ∀ token,
      token ∈ extra
      ↔ ∃ src dest, Files (FPM_ (Config ctx)) !! src = Some dest
                    ∧ token = src +:+ "=" +:+ dest.
Proof.
  intros options basic extra. subst options basic extra.
  rewrite createOptions_split. unfold mapping_tokens.
  rewrite !length_app, !length_map, length_map_to_list.
  rewrite app_assoc, drop_app_length' by (by rewrite length_app, length_map).
  rewrite length_map, length_map_to_list.
  split; [lia|]. split; [done|].
  intros token. rewrite list_elem_of_In, in_map_iff. split.
  - intros ([src dest] & <- & Hin). exists src, dest.
    split; [|done]. by apply elem_of_map_to_list, list_elem_of_In.
  - intros (src & dest & Hfile & ->). exists (src, dest).
    split; [done|]. by apply list_elem_of_In, elem_of_map_to_list.
Qed.
End Task.

(** ** The tasks of a run *)

Section Tasks.
Context `{World}.

Lemma group_fold_lookup items (groups : gmap string (list Artifact)) key :
  default [] (fold_left
                (fun result a =>
                   <[platform a := default [] (result !! platform a) ++ [a]]> result)
                items groups !! key)
  = default [] (groups !! key) ++ on_platform key items.
Proof.
  revert groups. induction items as [|a items IH]; intros groups; simpl.
  - by rewrite app_nil_r.
  - rewrite IH. unfold on_platform. simpl.
    destruct (decide (platform a = key)) as [->|Hne].
    + rewrite lookup_insert_eq, bool_decide_eq_true_2 by done. simpl.
      by rewrite <- app_assoc.
    + by rewrite lookup_insert_ne, bool_decide_eq_false_2 by done.
Qed.

(** The group of a key is what the artifacts have on that platform, in
    their order; a key has a group when there is such an artifact. *)
Lemma GroupByPlatform_lookup items key group :
  GroupByPlatform items !! key = Some group
  ↔ group = on_platform key items ∧ group ≠ [].
Proof.
  pose proof (group_fold_lookup items ∅ key) as Hfold.
  rewrite lookup_empty in Hfold. simpl in Hfold. fold (GroupByPlatform items) in Hfold.
  split.
  - intros Hgroup. split; [|by eapply GroupByPlatform_nonempty].
    by rewrite Hgroup in Hfold.
  - intros [-> Hne].
    destruct (GroupByPlatform items !! key) as [group|] eqn:Hgroup.
    + simpl in Hfold. by rewrite Hfold.
    + simpl in Hfold. by rewrite <- Hfold in Hne.
Qed.

Lemma on_platform_elem key items a :
  a ∈ on_platform key items ↔ a ∈ items ∧ platform a = key.
Proof.
  unfold on_platform. rewrite !list_elem_of_In, List.filter_In.
  by rewrite bool_decide_eq_true.
Qed.

Lemma Filter_linux_elem items a :
  a ∈ Filter linux_binaries items ↔ a ∈ items ∧ Type' a = Binary ∧ Goos a = "linux".
Proof.
  unfold Filter, linux_binaries, And, ByType, ByGoos.
  rewrite !list_elem_of_In, List.filter_In, andb_true_iff.
  by rewrite !bool_decide_eq_true.
Qed.

Lemma tasks_elem ctx items format arch binaries :
  (format, arch, binaries) ∈ tasks ctx items
  ↔ format ∈ Formats (FPM_ (Config ctx))
    ∧ ∃ key, arch = linux_Arch key
             ∧ binaries = on_platform key (Filter linux_binaries items)
             ∧ binaries ≠ [].
Proof.
  unfold tasks, platform_groups. rewrite list_elem_of_In, in_flat_map. split.
  - intros (format' & Hformat & Hin).
    apply in_map_iff in Hin as ([key group] & Htask & Hin).
    unfold task_of in Htask. simpl in Htask. simplify_eq.
    apply list_elem_of_In, elem_of_map_to_list, GroupByPlatform_lookup in Hin as [-> Hne].
    split; [by apply list_elem_of_In|]. by exists key.
  - intros (Hformat & key & -> & -> & Hne). exists format.
    split; [by apply list_elem_of_In|].
    apply in_map_iff. exists (key, on_platform key (Filter linux_binaries items)).
    split; [done|]. by apply list_elem_of_In, elem_of_map_to_list, GroupByPlatform_lookup.
Qed.

(** X6 — The tasks of a run are, for every configured format, the
    groups of the Linux binaries by platform: a task's binaries are all
    the artifacts of kind binary and OS linux that have one platform key,
    in the order of the collection, and there is at least one; its
    architecture label is [linux.Arch] of that key.  Nothing else is ever
    packaged, and every Linux binary is in a task of every format: the
    one of its own platform. *)
Theorem tasks_by_platform ctx items :
  (∀ format arch binaries,
     (format, arch, binaries) ∈ tasks ctx items
     ↔ format ∈ Formats (FPM_ (Config ctx))
       ∧ ∃ key, arch = linux_Arch key
                ∧ binaries = on_platform key (Filter linux_binaries items)
                ∧ binaries ≠ [])
  ∧ (∀ format arch binaries binary,
       (format, arch, binaries) ∈ tasks ctx items → binary ∈ binaries →
       binary ∈ items ∧ Type' binary = Binary ∧ Goos binary = "linux"
       ∧ arch = linux_Arch (platform binary)
       ∧ binaries = on_platform (platform binary) (Filter linux_binaries items))
  ∧ (∀ format binary,
       format ∈ Formats (FPM_ (Config ctx)) →
       binary ∈ items → Type' binary = Binary → Goos binary = "linux" →
       binary ∈ on_platform (platform binary) (Filter linux_binaries items)
       ∧ (format, linux_Arch (platform binary),
          on_platform (platform binary) (Filter linux_binaries items)) ∈ tasks ctx items).
Proof.
  split; [apply tasks_elem|]. split.
  - intros format arch binaries binary Htask Hin.
    apply tasks_elem in Htask as (_ & key & -> & -> & _).
    apply on_platform_elem in Hin as [Hin <-].
    apply Filter_linux_elem in Hin as (? & ? & ?). done.
  - intros format binary Hformat Hin Htype Hos.
    assert (Hgroup : binary ∈ on_platform (platform binary) (Filter linux_binaries items)).
    { apply on_platform_elem. split; [|done]. by apply Filter_linux_elem. }
    split; [done|]. apply tasks_elem. split; [done|]. exists (platform binary).
    repeat split. intros Hnil. rewrite Hnil in Hgroup. by apply elem_of_nil in Hgroup.
Qed.

(** A step is a move of the calling goroutine in its loops, a send
    followed by [g.Go], a [create] or the last step of a goroutine. *)
Lemma step_cases ctx l s s' :
  step ctx l s = Some s' →
  (l = LMain ∧ pool s' = pool s ∧ store s' = store s ∧ g_err s' = g_err s
   ∧ scheduled s' = scheduled s ∧ sem s' = sem s)
  ∨ (∃ format arch binaries,
       l = LMain ∧ (Z.of_nat (sem s) < Parallelism ctx)%Z
       ∧ pool s' = pool s ++ [GoCreate format arch binaries]
       ∧ store s' = store s ∧ g_err s' = g_err s
       ∧ scheduled s' = scheduled s ++ [(format, arch, binaries)])
  ∨ (∃ i format arch binaries r,
       l = LTask i ∧ pool s !! i = Some (GoCreate format arch binaries)
       ∧ create ctx format arch binaries (store s) = (r, store s')
       ∧ g_err s' = g_err s ∧ scheduled s' = scheduled s
       ∧ match r with
         | Returned err => pool s' = <[i:=GoDefer err]> (pool s) ∧ main s' = main s
         | Panicked => pool s' = pool s ∧ main s' = PcPanicked
         end)
  ∨ (∃ i err,
       l = LTask i ∧ pool s !! i = Some (GoDefer err)
       ∧ pool s' = delete i (pool s) ∧ store s' = store s
       ∧ g_err s' = match g_err s with Some e => Some e | None => err end
       ∧ scheduled s' = scheduled s ∧ main s' = main s).
Proof.
  destruct s as [m sm pl ge sc st]. destruct l as [|i]; simpl.
  - destruct m as [[|format formats]|format [|[platform artifacts] groups] formats| | |];
      try done; try (intros [= <-]; by left).
    + case_bool_decide; [|done]. intros [= <-]. right. left. by eexists _, _, _.
    + destruct pl; [|done]. intros [= <-]. by left.
  - destruct (pl !! i) as [[format arch binaries|err]|] eqn:Hi.
    + destruct (create ctx format arch binaries st) as [r st'] eqn:Hcreate.
      destruct r as [err|]; destruct m; intros [= <-];
        right; right; left; eexists i, format, arch, binaries, _; by rewrite Hcreate.
    + destruct m; intros [= <-]; right; right; right; by exists i, err.
    + by destruct m.
Qed.
End Tasks.

(** ** What a run leaves behind *)

Section Outcomes.
Context `{World}.

Lemma list_sum_insert_any (w : goroutine → nat) (pl : list goroutine) i g g' :
  pl !! i = Some g →
  list_sum (map w (<[i:=g']> pl)) + w g = list_sum (map w pl) + w g'.
Proof.
  revert i. induction pl as [|g0 pl IH]; intros [|i] Hi; simplify_eq/=; [lia|].
  specialize (IH i Hi). lia.
Qed.

Lemma list_sum_delete_any (w : goroutine → nat) (pl : list goroutine) i g :
  pl !! i = Some g →
  list_sum (map w (delete i pl)) + w g = list_sum (map w pl).
Proof.
  revert i. induction pl as [|g0 pl IH]; intros [|i] Hi; simplify_eq/=; [lia|].
  specialize (IH i Hi). lia.
Qed.

(** The artifacts a step adds are packages of Linux binaries. *)
Lemma step_added ctx items l s s' :
  doRun_inv ctx items s → step ctx l s = Some s' →
  ∃ new, Artifacts (store s') = Artifacts (store s) ++ new
         ∧ Forall (package_of items) new.
Proof.
  intros (_ & _ & _ & Hpool & _) Hstep.
  apply step_cases in Hstep
    as [(_ & _ & -> & _)|[(? & ? & ? & _ & _ & _ & -> & _)
       |[(i & format & arch & binaries & r & _ & Hi & Hcreate & _)
        |(? & ? & _ & _ & _ & -> & _)]]];
    try (exists []; by rewrite app_nil_r).
  pose proof (Forall_lookup_1 _ _ _ _ Hpool Hi) as [_ Htask].
  apply create_cases in Hcreate
    as [(e & _ & -> & _)|[(name & e & _ & _ & ->)
                         |(name & dir & out & err & _ & _ & Hend)]];
    try (exists []; by rewrite app_nil_r).
  destruct Hend as [(e & _ & _ & ->)|[(_ & _ & _ & ->)|(b0 & rest & _ & -> & _ & ->)]];
    try (exists []; by rewrite app_nil_r).
  eexists [_]. split; [done|]. constructor; [|done].
  apply tasks_elem in Htask as (_ & key & _ & Hgroup & _).
  assert (Hb0 : b0 ∈ on_platform key (Filter linux_binaries items)).
  { rewrite <- Hgroup. left. }
  apply on_platform_elem in Hb0 as [Hb0 _].
  apply Filter_linux_elem in Hb0 as (Hin & Htype & Hos).
  split; [done|]. split; [done|]. by exists b0.
Qed.

Lemma exec_added ctx items schedule s s' :
  doRun_inv ctx items s → exec ctx schedule s = Some s' →
  ∃ new, Artifacts (store s') = Artifacts (store s) ++ new
         ∧ Forall (package_of items) new.
Proof.
  revert s. induction schedule as [|l schedule IH]; intros s Hinv; simpl.
  - intros [= <-]. exists []. by rewrite app_nil_r.
  - destruct (step ctx l s) as [s1|] eqn:Hstep; [|done]. intros Hexec.
    destruct (step_added _ _ _ _ _ Hinv Hstep) as (new1 & Hart1 & Hnew1).
    destruct (IH s1) as (new2 & Hart2 & Hnew2); [by eapply doRun_inv_step|done|].
    exists (new1 ++ new2). rewrite Hart2, Hart1, app_assoc.
    split; [done|]. by apply Forall_app.
Qed.

(** X7 — The artifact collection only grows in a run, and only by
    packages: under every schedule the artifacts [doRun] started with
    are still there, unchanged and in front, and every artifact that
    came after is of kind linux-package, for the OS linux, with the
    architecture and ARM variant of a Linux binary of the collection. *)
Theorem doRun_appends_packages ctx st schedule s :
  exec ctx schedule (doRun ctx st) = Some s →
  ∃ added, Artifacts (store s) = Artifacts st ++ added
           ∧ Forall (package_of (Artifacts st)) added.
Proof.
  intros Hexec.
  pose proof (doRun_inv_start ctx (Artifacts st) st eq_refl) as Hstart.
  destruct (exec_added _ _ _ _ _ Hstart Hexec) as (new & Hart & Hnew).
  exists new. split; [|done]. rewrite Hart. unfold doRun. by case_bool_decide.
Qed.

(** X8 — With a parallelism of zero and a task to start, [doRun] hangs:
    the first send on the channel without buffer never goes through, so
    that under every schedule no task is started, nothing is done to
    the store, and [doRun] does not return. *)
Theorem doRun_no_slot ctx st schedule s :
  Parallelism ctx = 0%Z →
  tasks ctx (Artifacts st) ≠ [] →
  exec ctx schedule (doRun ctx st) = Some s →
  scheduled s = [] ∧ pool s = [] ∧ store s = st ∧ ¬ returned s.
Proof.
  intros Hpar Htasks Hexec.
  pose proof (doRun_inv_start ctx (Artifacts st) st eq_refl) as Hstart.
  assert (Hquiet : ∀ schedule s0 s,
            doRun_inv ctx (Artifacts st) s0 → pool s0 = [] →
            exec ctx schedule s0 = Some s →
            pool s = [] ∧ store s = store s0 ∧ scheduled s = scheduled s0).
  { clear schedule s Hexec.
    induction schedule as [|l schedule IH]; intros s0 s Hinv Hpool; simpl.
    - by intros [= <-].
    - destruct (step ctx l s0) as [s1|] eqn:Hstep; [|done]. intros Hexec.
      assert (Hs1 : pool s1 = [] ∧ store s1 = store s0 ∧ scheduled s1 = scheduled s0).
      { destruct Hinv as (Hsem & _).
        apply step_cases in Hstep
          as [(_ & -> & -> & _ & -> & _)|[(? & ? & ? & _ & Hfree & _)
             |[(i & ? & ? & ? & ? & _ & Hi & _)|(i & ? & _ & Hi & _)]]].
        - done.
        - rewrite Hsem, Hpool, Hpar in Hfree. simpl in Hfree. lia.
        - by rewrite Hpool in Hi.
        - by rewrite Hpool in Hi. }
      destruct Hs1 as (Hp1 & Hst1 & Hsc1).
      destruct (IH s1 s) as (? & ? & ?); [by eapply doRun_inv_step|done|done|].
      repeat split; congruence. }
  assert (Hinit : pool (doRun ctx st) = [] ∧ store (doRun ctx st) = st
                  ∧ scheduled (doRun ctx st) = []).
  { unfold doRun. by case_bool_decide. }
  destruct Hinit as (Hp0 & Hs0 & Hsc0).
  destruct (Hquiet _ _ _ Hstart Hp0 Hexec) as (Hp & Hs & Hsc).
  repeat split; try congruence.
  intros [err Hret].
  pose proof (doRun_inv_exec ctx _ _ _ _ Hstart Hexec) as (_ & _ & _ & _ & Hmain).
  rewrite Hret in Hmain. destruct Hmain as (_ & _ & Hall). congruence.
Qed.

Lemma exec_steps_left ctx items schedule s s' :
  doRun_inv ctx items s → exec ctx schedule s = Some s' →
  length schedule + steps_left items s' = steps_left items s.
Proof.
  revert s. induction schedule as [|l schedule IH]; intros s Hinv; simpl.
  - by intros [= <-].
  - destruct (step ctx l s) as [s1|] eqn:Hstep; [|done]. intros Hexec.
    pose proof (steps_left_step _ _ _ _ _ Hinv Hstep) as Hone.
    specialize (IH s1 (doRun_inv_step _ _ _ _ _ Hinv Hstep) Hexec). lia.
Qed.

(** X9 — [doRun] ends after a number of steps that the schedule does not
    change: with N formats and M platforms among the Linux binaries, a
    run that has returned took 2 + N × (2 + 3 × M) steps (per format,
    into and out of the inner loop; per task, the send with [g.Go], the
    [create] and the release), and no run takes more. *)
Theorem doRun_steps ctx st schedule s :
  (0 ≤ Parallelism ctx)%Z →
  exec ctx schedule (doRun ctx st) = Some s →
  let N := length (Formats (FPM_ (Config ctx))) in
  let M := size (list_to_set (platform <$> Filter linux_binaries (Artifacts st))
                 : gset string) in
  length schedule + steps_left (Artifacts st) s = 2 + N * (2 + 3 * M)
  ∧ length schedule ≤ 2 + N * (2 + 3 * M)
  ∧ (returned s → length schedule = 2 + N * (2 + 3 * M)).
Proof.
  intros Hpar Hexec N M. subst N M.
  pose proof (doRun_inv_start ctx (Artifacts st) st eq_refl) as Hstart.
  pose proof (exec_steps_left _ _ _ _ _ Hstart Hexec) as Hleft.
  pose proof (doRun_inv_exec ctx _ _ _ _ Hstart Hexec) as (_ & _ & _ & _ & Hmain).
  assert (Hinit : steps_left (Artifacts st) (doRun ctx st)
                  = 2 + length (Formats (FPM_ (Config ctx)))
                        * (2 + 3 * size (list_to_set
                               (platform <$> Filter linux_binaries (Artifacts st))
                               : gset string))).
  { unfold doRun. rewrite bool_decide_eq_false_2 by lia.
    unfold steps_left, platform_groups. simpl. rewrite GroupByPlatform_size. lia. }
  rewrite Hinit in Hleft. split; [done|]. split; [lia|].
  intros [err Hret]. rewrite Hret in Hmain. destruct Hmain as (Hpool & _).
  unfold steps_left in Hleft. rewrite Hret, Hpool in Hleft. simpl in Hleft. lia.
Qed.
End Outcomes.

(** ** What a run returns *)

Section Results.
Context `{World}.




(** Every task that was started is in the pool or has handed over its
    result. *)
Lemma exec_handed_over ctx schedule s s' :
  exec ctx schedule s = Some s' →
  length (handed_over ctx schedule s) + length (pool s') + length (scheduled s)
  = length (scheduled s') + length (pool s).
Proof.
  revert s. induction schedule as [|l schedule IH]; intros s; simpl.
  - intros [= <-]. lia.
  - destruct (step ctx l s) as [s1|] eqn:Hstep; [|done]. intros Hexec.
    specialize (IH _ Hexec).
    apply step_cases in Hstep
      as [(-> & Hp & _ & _ & Hsc & _)|[(? & ? & ? & -> & _ & Hp & _ & _ & Hsc)
         |[(i & ? & ? & ? & r & -> & Hi & _ & _ & Hsc & Hr)
          |(i & err & -> & Hi & Hp & _ & _ & Hsc & _)]]];
      rewrite ?Hi; simpl; rewrite ?length_app; simpl.
    + rewrite Hp, Hsc in IH. lia.
    + rewrite Hp, Hsc, !length_app in IH. simpl in IH. lia.
    + destruct r as [err|]; destruct Hr as [Hp _]; rewrite Hp, Hsc, ?length_insert in IH; lia.
    + assert (Hlen : S (length (delete i (pool s))) = length (pool s)).
      { rewrite length_delete by eauto. apply lookup_lt_Some in Hi. lia. }
      rewrite Hp, Hsc in IH. lia.
Qed.

(** Every package that was added comes from a task that ended well, and
    that is in the pool or has handed over its result. *)
Lemma exec_successes ctx schedule s s' :
  exec ctx schedule s = Some s' →
  length (Artifacts (store s')) + done_well s
  = length (Artifacts (store s)) + successes (handed_over ctx schedule s) + done_well s'.
Proof.
  revert s. induction schedule as [|l schedule IH]; intros s; simpl.
  - intros [= <-]. unfold successes. simpl. lia.
  - destruct (step ctx l s) as [s1|] eqn:Hstep; [|done]. intros Hexec.
    specialize (IH _ Hexec). unfold done_well in *.
    apply step_cases in Hstep
      as [(-> & Hp & Hst & _)|[(? & ? & ? & -> & _ & Hp & Hst & _)
         |[(i & format & arch & binaries & r & -> & Hi & Hcreate & _ & _ & Hr)
          |(i & err & -> & Hi & Hp & Hst & _)]]];
      rewrite ?Hi; simpl.
    + rewrite Hp, Hst in IH. lia.
    + rewrite Hp, Hst, map_app, list_sum_app in IH. simpl in IH. lia.
    + pose proof (list_sum_insert_any
                    (fun g => match g with GoDefer None => 1 | _ => 0 end)
                    (pool s) i _ (GoDefer (match r with Returned e => e | Panicked => None end))
                    Hi) as Hsum.
      simpl in Hsum.
      apply create_cases in Hcreate
        as [(e & -> & <- & _)|[(name & e & _ & -> & Hst)
                              |(name & dir & out & err & _ & _ & Hend)]].
      * destruct Hr as [Hp _]. rewrite Hp in IH. simpl in Hsum. lia.
      * destruct Hr as [Hp _]. rewrite Hp, Hst in IH. simpl in *. lia.
      * destruct Hend as [(e & _ & -> & Hart)|[(_ & _ & -> & Hart)
                         |(b0 & rest & _ & _ & -> & Hart)]];
          destruct Hr as [Hp _]; rewrite Hp, Hart, ?length_app in IH; simpl in *; lia.
    + pose proof (list_sum_delete_any
                    (fun g => match g with GoDefer None => 1 | _ => 0 end)
                    (pool s) i _ Hi) as Hsum.
      rewrite Hp, Hst in IH. unfold successes in *. simpl in *.
      destruct err; simpl in *; lia.
Qed.


(** X11 — When [doRun] returns, the collection holds the artifacts it
    started with and one more for every task that ended well, no more
    and no less: a task that failed has added nothing, and the packages
    of the other tasks stay even when [doRun] returns an error. *)
Theorem doRun_packages_count ctx st schedule s :
  exec ctx schedule (doRun ctx st) = Some s →
  returned s →
  length (Artifacts (store s))
  = length (Artifacts st) + successes (handed_over ctx schedule (doRun ctx st)).
Proof.
  intros Hexec [err Hret].
  pose proof (doRun_inv_start ctx (Artifacts st) st eq_refl) as Hstart.
  pose proof (doRun_inv_exec ctx _ _ _ _ Hstart Hexec) as (_ & _ & _ & _ & Hmain).
  rewrite Hret in Hmain. destruct Hmain as (Hpool & _).
  pose proof (exec_successes _ _ _ _ Hexec) as Hcount.
  unfold done_well in Hcount. rewrite Hpool in Hcount.
  assert (Hinit : pool (doRun ctx st) = [] ∧ store (doRun ctx st) = st).
  { unfold doRun. by case_bool_decide. }
  destruct Hinit as (Hp0 & Hs0). rewrite Hp0, Hs0 in Hcount. simpl in Hcount. lia.
Qed.
End Results.

(** ** The tasks a run starts *)

Section Fanout.
Context `{World}.

Lemma waiting_app pl1 pl2 : waiting (pl1 ++ pl2) = waiting pl1 ++ waiting pl2.
Proof. unfold waiting. apply flat_map_app. Qed.

Lemma waiting_insert pl i format arch binaries err :
  pl !! i = Some (GoCreate format arch binaries) →
  waiting pl ≡ₚ (format, arch, binaries) :: waiting (<[i:=GoDefer err]> pl).
Proof.
  revert i. induction pl as [|g pl IH]; intros [|i] Hi; simplify_eq/=; [done|].
  rewrite (IH i Hi). by rewrite Permutation_middle.
Qed.

Lemma waiting_delete pl i err :
  pl !! i = Some (GoDefer err) → waiting (delete i pl) = waiting pl.
Proof.
  revert i. induction pl as [|g pl IH]; intros [|i] Hi; simplify_eq/=; [done|].
  by rewrite (IH i Hi).
Qed.

(** The tasks that were started are those whose [create] was run and
    those that wait for it in the pool. *)
Lemma exec_created ctx items schedule s s' base :
  doRun_inv ctx items s → exec ctx schedule s = Some s' →
  scheduled s ≡ₚ base ++ waiting (pool s) →
  scheduled s' ≡ₚ base ++ created ctx schedule s ++ waiting (pool s').
Proof.
  revert s base. induction schedule as [|l schedule IH]; intros s base Hinv; simpl.
  - by intros [= <-].
  - destruct (step ctx l s) as [s1|] eqn:Hstep; [|done]. intros Hexec Hbase.
    pose proof (doRun_inv_step _ _ _ _ _ Hinv Hstep) as Hinv1.
    destruct Hinv as (_ & _ & _ & Hpool & _).
    apply step_cases in Hstep
      as [(-> & Hp & _ & _ & Hsc & _)|[(format & arch & binaries & -> & _ & Hp & _ & _ & Hsc)
         |[(i & format & arch & binaries & r & -> & Hi & Hcreate & _ & Hsc & Hr)
          |(i & err & -> & Hi & Hp & _ & _ & Hsc & _)]]];
      rewrite ?Hi; simpl.
    + apply (IH s1 base Hinv1 Hexec). by rewrite Hsc, Hp.
    + apply (IH s1 base Hinv1 Hexec).
      rewrite Hsc, Hp, waiting_app, Hbase. simpl. by rewrite app_assoc.
    + pose proof (Forall_lookup_1 _ _ _ _ Hpool Hi) as [Hbinaries _].
      apply create_artifacts in Hcreate as [_ Hpanic].
      destruct r as [err|]; [|by specialize (Hpanic eq_refl)].
      destruct Hr as [Hp _].
      rewrite cons_middle, app_assoc. apply (IH s1 _ Hinv1 Hexec).
      rewrite Hsc, Hp, Hbase, (waiting_insert _ _ _ _ _ err Hi).
      by rewrite <- app_assoc.
    + apply (IH s1 base Hinv1 Hexec). by rewrite Hsc, Hp, (waiting_delete _ _ _ Hi).
Qed.

(** C4 — With a parallelism of at least one (and a capacity [make]
    takes for the channel), [doRun] comes to its end under every
    schedule.  At every moment the tasks it has started are those whose
    [create] was run by a goroutine and those that wait for it in the
    pool, and those that have not handed over their result hold the
    pool.  When it returns, the tasks it started are the tasks of the
    run, one for every format and every platform group of the Linux
    binaries, in some order: N×M of them for N formats and M distinct
    platforms; the [create] of each was run once, each has handed over
    its result, and the collection has one more artifact per task that
    ended well.  The [create] of a task either returns an error and
    leaves the artifacts as they are, or returns none and has appended
    one artifact: a linux-package named after the resolved name template
    and the format, at that name under the output directory, with the
    OS, architecture and ARM variant of the first binary of the group. *)
Theorem doRun_tasks ctx st :
  (1 ≤ Parallelism ctx)%Z →
  (Parallelism ctx ≤ makechan_bound)%Z →
  let N := length (Formats (FPM_ (Config ctx))) in
  let M := size (list_to_set (platform <$> Filter linux_binaries (Artifacts st))
                 : gset string) in
  (∃ schedule s, exec ctx schedule (doRun ctx st) = Some s ∧ returned s)
  ∧ ∀ schedule s,
      exec ctx schedule (doRun ctx st) = Some s →
      let ran := created ctx schedule (doRun ctx st) in
      let results := handed_over ctx schedule (doRun ctx st) in
      (∃ schedule' s',
         exec ctx (schedule ++ schedule') (doRun ctx st) = Some s' ∧ returned s')
      ∧ length (scheduled s) ≤ N * M
      ∧ scheduled s ≡ₚ ran ++ waiting (pool s)
      ∧ length (scheduled s) = length results + length (pool s)
      ∧ (returned s →
         scheduled s ≡ₚ tasks ctx (Artifacts st)
         ∧ ran ≡ₚ tasks ctx (Artifacts st)
         ∧ length (scheduled s) = N * M ∧ length ran = N * M ∧ length results = N * M
         ∧ length (Artifacts (store s)) = length (Artifacts st) + successes results)
      ∧ ∀ i format arch binaries s',
          pool s !! i = Some (GoCreate format arch binaries) →
          step ctx (LTask i) s = Some s' →
          (format, arch, binaries) ∈ tasks ctx (Artifacts st)
          ∧ ((∃ err, pool s' !! i = Some (GoDefer (Some err))
                     ∧ Artifacts (store s') = Artifacts (store s))
             ∨ (∃ name binary0 rest,
                  pool s' !! i = Some (GoDefer None)
                  ∧ binaries = binary0 :: rest
                  ∧ filenametemplate_Apply (NameTemplate (FPM_ (Config ctx)))
                      (filenametemplate_NewFields ctx
                         (Replacements (FPM_ (Config ctx))) binaries)
                    = inl name
                  ∧ Artifacts (store s')
                    = Artifacts (store s)
                      ++ [mkArtifact LinuxPackage (name +:+ "." +:+ format)
                            (filepath_Join (Dist (Config ctx)) name +:+ "." +:+ format)
                            (Goos binary0) (Goarch binary0) (Goarm binary0)])).
Proof.
  intros Hpar _ N M. subst N M. rewrite <- tasks_length.
  pose proof (doRun_inv_start ctx (Artifacts st) st eq_refl) as Hstart.
  assert (Hinit : pool (doRun ctx st) = [] ∧ scheduled (doRun ctx st) = []
                  ∧ store (doRun ctx st) = st).
  { unfold doRun. by case_bool_decide. }
  destruct Hinit as (Hp0 & Hsc0 & Hst0).
  split.
  { apply (doRun_ends_within ctx (Artifacts st) _ _ eq_refl Hstart); [lia|by left]. }
  intros schedule s Hexec ran results. subst ran results.
  pose proof (doRun_inv_exec ctx (Artifacts st) _ _ _ Hstart Hexec) as Hinv.
  destruct (doRun_inv_scheduled ctx (Artifacts st) s Hinv) as [Hlen Hret]; [lia|].
  assert (Hran : scheduled s ≡ₚ created ctx schedule (doRun ctx st) ++ waiting (pool s)).
  { apply (exec_created ctx (Artifacts st) schedule _ s [] Hstart Hexec).
    by rewrite Hp0, Hsc0. }
  pose proof (exec_handed_over _ _ _ _ Hexec) as Hover.
  rewrite Hp0, Hsc0 in Hover. simpl in Hover.
  split; [|split; [done|split; [done|split; [lia|split]]]].
  - destruct (doRun_ends_within ctx (Artifacts st) _ s eq_refl Hinv)
      as (schedule' & s' & Hexec' & Hret'); [lia|by left|].
    exists schedule', s'. by rewrite exec_app, Hexec.
  - intros Hs. pose proof Hs as [err Hmain].
    destruct Hinv as (_ & _ & _ & _ & Hm). rewrite Hmain in Hm.
    destruct Hm as (Hpool & _ & _).
    rewrite Hpool in Hran, Hover. simpl in Hran, Hover. rewrite app_nil_r in Hran.
    pose proof (exec_successes _ _ _ _ Hexec) as Hcount.
    unfold done_well in Hcount. rewrite Hp0, Hpool, Hst0 in Hcount. simpl in Hcount.
    rewrite <- (Hret Hs).
    split; [done|]. split; [done|]. split; [done|].
    split; [by rewrite <- Hran|]. split; lia.
  - intros i format arch binaries s' Hi Hstep.
    destruct Hinv as (_ & _ & _ & Hpool & _).
    pose proof (Forall_lookup_1 _ _ _ _ Hpool Hi) as [Hbinaries Htask].
    split; [done|].
    apply (step_create _ _ _ _ _ _ _ Hi) in Hstep.
    destruct (create ctx format arch binaries (store s)) as [r st'] eqn:Hcreate.
    assert (Hlt : i < length (pool s)) by (by eapply lookup_lt_Some).
    apply create_cases in Hcreate
      as [(e & -> & -> & _)|[(name & e & _ & -> & ->)
                            |(name & dir & out & err & Hname & _ & Hend)]].
    + left. exists e. subst s'. simpl. by rewrite list_lookup_insert_eq.
    + left. exists e. subst s'. simpl. by rewrite list_lookup_insert_eq.
    + destruct Hend as [(e & _ & -> & Hart)|[(_ & Hnil & _)|(b0 & rest & _ & Hb & -> & Hart)]].
      * left. exists (ErrWrap e out). subst s'. simpl. by rewrite list_lookup_insert_eq.
      * done.
      * right. exists name, b0, rest. subst s'. simpl. by rewrite list_lookup_insert_eq.
Qed.
End Fanout.

(** ** The further properties at work on concrete runs *)

Section MoreWorked.
Import Examples MoreExamples.

Lemma basicOptions_inj_witness :
  basicOptions (ctx ["rpm"] 4) "/tmp/fpm" "rpm" "amd64" "dist/a.rpm"
  = basicOptions ctx_opt "/tmp/fpm" "rpm" "amd64" "dist/a.rpm"
  ∧ Dependencies (FPM_ (Config (ctx ["rpm"] 4))) = Dependencies (FPM_ (Config ctx_opt)).
Proof.
  assert (Heq : basicOptions (ctx ["rpm"] 4) "/tmp/fpm" "rpm" "amd64" "dist/a.rpm"
                = basicOptions ctx_opt "/tmp/fpm" "rpm" "amd64" "dist/a.rpm")
    by reflexivity.
  split; [exact Heq|].
  destruct (basicOptions_inj _ _ _ _ _ _ _ _ _ _ Heq)
    as (_ & _ & _ & _ & _ & _ & _ & _ & _ & _ & _ & _ & Hdeps & _).
  exact Hdeps.
Defined.

Lemma create_package_file_witness :
  ∃ st' pkg c dir,
    create (H:=world) (ctx ["rpm"] 4) "rpm" "amd64" [app; helper] (store0 [app; helper])
    = (Returned None, st')
    ∧ Artifacts st' = [app; helper] ++ [pkg]
    ∧ Args c !! 11 = Some (Path pkg)
    ∧ Args c !! (length (basicOptions (ctx ["rpm"] 4) dir "rpm" "amd64" (Path pkg)) + 1)
      = Some "dist/linux_amd64/app-helper=/usr/local/bin/app-helper".
Proof.
  destruct (create (H:=world) (ctx ["rpm"] 4) "rpm" "amd64" [app; helper]
              (store0 [app; helper])) as [r st'] eqn:Hcreate.
  assert (Hr : r = Returned None).
  { vm_compute in Hcreate. by injection Hcreate as <- _. }
  subst r.
  destruct (create_package_file (H:=world) _ _ _ _ _ _ Hcreate)
    as (pkg & c & out & dir & Hart & _ & _ & Hfile & Htokens).
  exists st', pkg, c, dir. split; [reflexivity|]. split; [exact Hart|].
  split; [exact Hfile|]. exact (Htokens 1 helper eq_refl).
Defined.

Lemma doRun_appends_packages_witness :
  ∃ s added,
    exec (H:=world_no_rpm) ctx2 in_turn (doRun ctx2 (store0 items4)) = Some s
    ∧ Artifacts (store s) = items4 ++ added
    ∧ Forall (package_of items4) added.
Proof.
  destruct (exec (H:=world_no_rpm) ctx2 in_turn (doRun ctx2 (store0 items4)))
    as [s|] eqn:Hexec; [|vm_compute in Hexec; discriminate Hexec].
  destruct (doRun_appends_packages (H:=world_no_rpm) _ _ _ _ Hexec) as (added & Hart & Hall).
  exists s, added. split; [reflexivity|]. split; [exact Hart|exact Hall].
Defined.

Lemma doRun_no_slot_witness :
  Parallelism (ctx ["deb"] 0) = 0%Z
  ∧ tasks (H:=world) (ctx ["deb"] 0) (Artifacts (store0 items4)) ≠ []
  ∧ ∃ s, exec (H:=world) (ctx ["deb"] 0) [LMain] (doRun (ctx ["deb"] 0) (store0 items4))
         = Some s
         ∧ scheduled s = [] ∧ pool s = [] ∧ ¬ returned s.
Proof.
  assert (Hpar : Parallelism (ctx ["deb"] 0) = 0%Z) by reflexivity.
  assert (Htasks : tasks (H:=world) (ctx ["deb"] 0) (Artifacts (store0 items4)) ≠ []).
  { vm_compute. discriminate. }
  split; [exact Hpar|]. split; [exact Htasks|].
  destruct (exec (H:=world) (ctx ["deb"] 0) [LMain] (doRun (ctx ["deb"] 0) (store0 items4)))
    as [s|] eqn:Hexec; [|vm_compute in Hexec; discriminate Hexec].
  destruct (doRun_no_slot (H:=world) _ _ _ _ Hpar Htasks Hexec) as (Hsched & Hpool & _ & Hret).
  exists s. split; [reflexivity|]. split; [exact Hsched|]. split; [exact Hpool|exact Hret].
Defined.

Lemma doRun_steps_witness :
  (0 ≤ Parallelism ctx2)%Z
  ∧ ∃ s, exec (H:=world_no_rpm) ctx2 in_turn (doRun ctx2 (store0 items4)) = Some s
         ∧ returned s
         ∧ length in_turn = 2 + 2 * (2 + 3 * 2).
Proof.
  assert (Hpar : (0 ≤ Parallelism ctx2)%Z) by (simpl; lia).
  split; [exact Hpar|].
  destruct (exec (H:=world_no_rpm) ctx2 in_turn (doRun ctx2 (store0 items4)))
    as [s|] eqn:Hexec; [|vm_compute in Hexec; discriminate Hexec].
  assert (Hret : returned s).
  { pose proof Hexec as Hval. vm_compute in Hval. injection Hval as <-. by eexists. }
  destruct (doRun_steps (H:=world_no_rpm) _ _ _ _ Hpar Hexec) as (_ & _ & Hlen).
  exists s. split; [reflexivity|]. split; [exact Hret|]. exact (Hlen Hret).
Defined.


Lemma doRun_packages_count_witness :
  ∃ s,
    exec (H:=world_no_rpm) ctx2 in_turn (doRun ctx2 (store0 items4)) = Some s
    ∧ returned s
    ∧ length (Artifacts (store s))
      = length (Artifacts (store0 items4))
        + successes (handed_over (H:=world_no_rpm) ctx2 in_turn (doRun ctx2 (store0 items4))).
Proof.
  destruct (exec (H:=world_no_rpm) ctx2 in_turn (doRun ctx2 (store0 items4)))
    as [s|] eqn:Hexec; [|vm_compute in Hexec; discriminate Hexec].
  assert (Hret : returned s).
  { pose proof Hexec as Hval. vm_compute in Hval. injection Hval as <-. by eexists. }
  exists s. split; [reflexivity|]. split; [exact Hret|].
  exact (doRun_packages_count (H:=world_no_rpm) _ _ _ _ Hexec Hret).
Defined.

Lemma doRun_tasks_witness :
  (1 ≤ Parallelism ctx2)%Z
  ∧ (Parallelism ctx2 ≤ makechan_bound)%Z
  ∧ ∃ s,
      exec (H:=world) ctx2 in_turn_ok (doRun ctx2 (store0 items4)) = Some s
      ∧ returned s
      ∧ created (H:=world) ctx2 in_turn_ok (doRun ctx2 (store0 items4))
        ≡ₚ tasks (H:=world) ctx2 (Artifacts (store0 items4))
      ∧ length (created (H:=world) ctx2 in_turn_ok (doRun ctx2 (store0 items4))) = 2 * 2
      ∧ length (handed_over (H:=world) ctx2 in_turn_ok (doRun ctx2 (store0 items4))) = 2 * 2
      ∧ length (Artifacts (store s))
        = length (Artifacts (store0 items4))
          + successes (handed_over (H:=world) ctx2 in_turn_ok (doRun ctx2 (store0 items4)))
      ∧ map (fun t => (t.1.1, t.1.2))
          (created (H:=world) ctx2 in_turn_ok (doRun ctx2 (store0 items4)))
        ≡ₚ [("deb", "linuxamd64"); ("deb", "linuxarm6");
            ("rpm", "linuxamd64"); ("rpm", "linuxarm6")]
      ∧ map Name (Artifacts (store s))
        ≡ₚ ["app"; "app-helper"; "app"; "app";
            "app_1.2.3_linux_amd64.deb"; "app_1.2.3_linux_armv6.deb";
            "app_1.2.3_linux_amd64.rpm"; "app_1.2.3_linux_armv6.rpm"].
Proof.
  assert (Hpar : (1 ≤ Parallelism ctx2)%Z) by (simpl; lia).
  assert (Hmax : (Parallelism ctx2 ≤ makechan_bound)%Z) by (vm_compute; discriminate).
  split; [exact Hpar|]. split; [exact Hmax|].
  destruct (exec (H:=world) ctx2 in_turn_ok (doRun ctx2 (store0 items4)))
    as [s|] eqn:Hexec; [|vm_compute in Hexec; discriminate Hexec].
  pose proof Hexec as Hval. vm_compute in Hval. injection Hval as Hval.
  assert (Hret : returned s) by (rewrite <- Hval; by eexists).
  destruct (doRun_tasks (H:=world) ctx2 (store0 items4) Hpar Hmax) as [_ Hall].
  destruct (Hall in_turn_ok s Hexec) as (_ & _ & _ & _ & Hend & _).
  destruct (Hend Hret) as (_ & Hran & _ & Hlen & Hover & Hcount).
  exists s. split; [reflexivity|]. split; [exact Hret|]. split; [exact Hran|].
  split; [exact Hlen|]. split; [exact Hover|]. split; [exact Hcount|].
  split; [vm_compute; reflexivity|]. rewrite <- Hval. vm_compute. reflexivity.
Defined.

(** The run of the last witnesses: the two deb packages are made, the
    two rpm tasks fail, and [doRun] returns the error of the first of
    them; the deb packages stay. *)
Example no_rpm_run :
  ∃ s,
    exec (H:=world_no_rpm) ctx2 in_turn (doRun ctx2 (store0 items4)) = Some s
    ∧ main s = PcReturned (Some (ErrWrap (ErrExternal "exit status 1") "rpmbuild: not found"))
    ∧ map Name (Artifacts (store s))
      = ["app"; "app-helper"; "app"; "app";
         "app_1.2.3_linux_amd64.deb"; "app_1.2.3_linux_armv6.deb"]
    ∧ handed_over (H:=world_no_rpm) ctx2 in_turn (doRun ctx2 (store0 items4))
      = [None; None;
         Some (ErrWrap (ErrExternal "exit status 1") "rpmbuild: not found");
         Some (ErrWrap (ErrExternal "exit status 1") "rpmbuild: not found")].
Proof. eexists. split; [vm_compute; reflexivity|]. by vm_compute. Qed.
End MoreWorked.
